(** * Defect inflow predictor: the analytics pipeline of [src/cli.py]

    A shallow embedding of [derive_measures], [ewma], [linreg_forecast],
    [forecast_next], [indicators] and [resource_plan], and the properties
    the specification states about them.

    Numbers.  The Python code computes on whatever pandas read from the
    CSV file and YAML handed over: NumPy integers and IEEE binary64
    floats.  The pipeline is therefore written once, over an interface
    [Arith] of scalar operations, and used at two instances:
    - [Q], exact rational arithmetic, where the algebraic statements of
      the specification are proved;
    - [float], Rocq's primitive binary64 numbers (round to nearest even,
      the arithmetic of Python's [float] and of [numpy.float64]), where
      the scalar code can be evaluated as the interpreter runs it.
    The library routines the code calls form two further interfaces:
    [Rounding] ([round] and [numpy.ceil]), given in exact arithmetic and
    in binary64, so that [resource_plan] runs in both; and [Numerics]
    (pandas reductions and [numpy.polyfit]), given in exact arithmetic
    only.  Statements proved over [Q] are statements about exact
    arithmetic; where the binary64 run of the same code differs, a lemma
    evaluates it.

    The development then follows the two command lines: [main] of
    [src/cli.py], which chains the pipeline and writes the report, and
    the ingestion script [src/fetch_github.py] ([week_floor],
    [severity_from], the pagination generator [paged] and the weekly
    aggregation of [main]), with dates as day ordinals, the issue
    tracker as a state-passing server and the dictionaries as finite
    maps. *)

From Stdlib Require Import ZArith QArith Qround Qabs Lqa Lia Floats Ascii String.
From stdpp Require Import base option list strings gmap pretty sorting.

Set Warnings "-inexact-float".

(** ** Scalar arithmetic *)

Class Arith (A : Type) := {
  num_zero : A;
  num_one : A;
  num_add : A → A → A;
  num_sub : A → A → A;
  num_mul : A → A → A;
  num_div : A → A → A;
  num_ltb : A → A → bool;   (* Python [x < y] *)
  num_leb : A → A → bool;   (* Python [x <= y] *)
  num_eqb : A → A → bool;   (* Python [x == y] *)
  num_of_int : Z → A        (* an integer operand promoted to the number type *)
}.

Declare Scope num_scope.
Delimit Scope num_scope with num.
Infix "⊕" := num_add (at level 50, left associativity) : num_scope.
Infix "⊖" := num_sub (at level 50, left associativity) : num_scope.
Infix "⊗" := num_mul (at level 40, left associativity) : num_scope.
Infix "⊘" := num_div (at level 40, left associativity) : num_scope.
Open Scope num_scope.

(** What [max(0.0, x) >= 0] needs of the comparisons. *)
Class ArithOrder (A : Type) `{Arith A} : Prop := {
  num_leb_zero : num_leb num_zero num_zero = true;
  num_ltb_leb_zero : ∀ x : A, num_ltb num_zero x = true → num_leb num_zero x = true
}.

#[global] Instance Q_arith : Arith Q := {|
  num_zero := 0%Q;
  num_one := 1%Q;
  num_add := Qplus;
  num_sub := Qminus;
  num_mul := Qmult;
  num_div := Qdiv;
  num_ltb x y := negb (Qle_bool y x);
  num_leb := Qle_bool;
  num_eqb := Qeq_bool;
  num_of_int := inject_Z
|}.

(** [float(n)] for an integer in the int64 range. *)
Definition float_of_int (z : Z) : float :=
  match z with
  | Z0 => PrimFloat.zero
  | Zpos _ => PrimFloat.of_uint63 (Uint63.of_Z z)
  | Zneg _ => PrimFloat.opp (PrimFloat.of_uint63 (Uint63.of_Z (- z)))
  end.

#[global] Instance float_arith : Arith float := {|
  num_zero := PrimFloat.zero;
  num_one := PrimFloat.one;
  num_add := PrimFloat.add;
  num_sub := PrimFloat.sub;
  num_mul := PrimFloat.mul;
  num_div := PrimFloat.div;
  num_ltb := PrimFloat.ltb;
  num_leb := PrimFloat.leb;
  num_eqb := PrimFloat.eqb;
  num_of_int := float_of_int
|}.

(** ** Python exceptions *)

Inductive exn :=
  | IndexError                 (* [iloc[-1]] or [preds[-1]] on an empty sequence *)
  | KeyError (key : string)    (* a dictionary without the key asked for *)
  | TypeError                  (* [numpy.polyfit]: expected non-empty vector for x *)
  | LinAlgError                (* [numpy.polyfit]: the system has no unique solution *)
  | OverflowError              (* [int(x)] on an infinity *)
  | ValueError.                (* [int(x)] on a NaN *)

Inductive result (T : Type) :=
  | Ok (v : T)
  | Raise (e : exn).
Arguments Ok {T} v.
Arguments Raise {T} e.

#[global] Instance result_bind : MBind result := λ T U k r,
  match r with
  | Ok v => k v
  | Raise e => Raise e
  end.

(** [d[key]] *)
Definition getitem {V} (d : gmap string V) (key : string) : result V :=
  match d !! key with
  | Some v => Ok v
  | None => Raise (KeyError key)
  end.

(** [s.iloc[-1]] and [l[-1]] *)
Definition iloc_last {T} (s : list T) : result T :=
  match last s with
  | Some v => Ok v
  | None => Raise IndexError
  end.

(** [range(lo, hi)] *)
Definition range (lo hi : Z) : list Z :=
  map (fun k => (lo + Z.of_nat k)%Z) (seq 0 (Z.to_nat (hi - lo))).

(** [DataFrame.tail(n)]: the last [n] rows; no row for [n = 0]; all rows
    but the first [-n] for a negative [n]. *)
Definition tail {T} (n : Z) (l : list T) : list T :=
  if (n =? 0)%Z then []
  else if (0 <? n)%Z then drop (length l - Z.to_nat n) l
  else drop (Z.to_nat (- n)) l.

(** ** Library numerics

    Python's [round], [numpy.ceil], the reductions of pandas and
    [numpy.polyfit] are library routines; the pipeline is written against
    their interface.  The two roundings, all that [resource_plan] needs
    beside the scalar operations, come first: they are given below both in
    exact arithmetic and in binary64. *)
Class Rounding (A : Type) := {
  round1 : A → A;                               (* [round(x, 1)] *)
  ceil_int : A → result Z                       (* [int(numpy.ceil(x))] *)
}.

Class Numerics (A : Type) `{Arith A} `{Rounding A} := {
  series_sum : list A → A;                      (* [Series.sum()] *)
  series_mean : list A → A;                     (* [Series.mean()] *)
  polyfit1 : list A → list A → result (A * A)   (* [numpy.polyfit(x, y, 1)] *)
}.

(** ** Data model *)

Section DataModel.
Context {A : Type}.

(** One row of the input frame (the CSV header of [base_measures.csv]). *)
Record WeekRow := {
  week_start : string;
  defects_inflow_total : A;
  defects_outflow_total : A;
  severity_critical_in : A;
  severity_high_in : A;
  severity_medium_in : A;
  severity_low_in : A;
  avg_resolution_time_hours : A;
  backlog_total : A
}.

(** A row of the frame [derive_measures] returns: the input columns and
    the six columns it assigns. *)
Record DerivedRow := {
  base : WeekRow;
  net_flow : A;
  inflow_rate : A;
  outflow_rate : A;
  severity_weighted_inflow : A;
  severe_inflow : A;
  mttr_hours : A
}.

(** A row of the frame [indicators] returns. *)
Record IndicatorRow := {
  derived : DerivedRow;
  problem_flags : string;
  health_status : string
}.

(** The configuration dictionary, for a file that has the sections
    [severity_weights], [health_thresholds] with its five keys and
    [resources] with [hours_per_defect], the capacity and [qa_share], and
    whose [forecast] section, when present, has [horizon_weeks].  What the
    code reads with [.get] or indexes by a computed key stays partial: the
    [forecast] section, [method], [ewma_alpha], and the entries of
    [severity_weights] and [hours_per_defect].  A file without one of the
    sections or keys taken as present stops with [KeyError] at its first
    use (lines 16, 71, 78 to 92, 102 to 108, 126); those runs are outside
    this model. *)
Record ForecastCfg := {
  method : option string;
  ewma_alpha : option A;
  horizon_weeks : Z
}.

Record HealthThresholds := {
  inflow_gt_outflow_consecutive_weeks : Z;
  backlog_healthy_max : A;
  critical_severe_window : Z;
  critical_severe_min : A;
  healthy_max_per_deployment : A
}.

Record Resources := {
  hours_per_defect : gmap string A;
  engineer_capacity_hours_per_week : A;
  qa_share : A
}.

Record Config := {
  severity_weights : gmap string A;
  forecast : option ForecastCfg;
  health_thresholds : HealthThresholds;
  resources : Resources
}.

(** The dictionary [resource_plan] returns. *)
Record ResourcePlan := {
  predicted_inflow : A;
  estimated_total_hours : A;
  recommended_engineers : Z;
  recommended_qa_hours : A;
  plan_hours_per_defect : gmap string A
}.

End DataModel.
Arguments WeekRow : clear implicits.
Arguments DerivedRow : clear implicits.
Arguments IndicatorRow : clear implicits.
Arguments ForecastCfg : clear implicits.
Arguments HealthThresholds : clear implicits.
Arguments Resources : clear implicits.
Arguments Config : clear implicits.
Arguments ResourcePlan : clear implicits.

Section Pipeline.
Context {A : Type} `{Numerics A}.

(** ** [derive_measures] *)

(** A frame is the list of its rows; a column expression of the source
    acts on every row. *)
Definition derive_row (wc wh wm wl : A) (r : WeekRow A) : DerivedRow A := {|
  base := r;
  net_flow := defects_inflow_total r ⊖ defects_outflow_total r;
  inflow_rate := defects_inflow_total r;
  outflow_rate := defects_outflow_total r;
  severity_weighted_inflow :=
    wc ⊗ severity_critical_in r ⊕ wh ⊗ severity_high_in r
      ⊕ wm ⊗ severity_medium_in r ⊕ wl ⊗ severity_low_in r;
  severe_inflow := severity_critical_in r ⊕ severity_high_in r;
  mttr_hours := avg_resolution_time_hours r
|}.

Definition derive_measures (df : list (WeekRow A)) (cfg : Config A)
  : result (list (DerivedRow A)) :=
  let w := severity_weights cfg in
  wc ← getitem w "critical";
  wh ← getitem w "high";
  wm ← getitem w "medium";
  wl ← getitem w "low";
  Ok (map (derive_row wc wh wm wl) df).

(** ** [ewma] *)

(** The body of [for _ in range(horizon)], run [n] times; [lastv] is
    [series.iloc[-1]], which the loop reads again at every turn. *)
Fixpoint ewma_loop (n : nat) (alpha lastv forecast : A) : A :=
  match n with
  | O => forecast
  | S n' => ewma_loop n' alpha lastv
              (alpha ⊗ lastv ⊕ (num_one ⊖ alpha) ⊗ forecast)
  end.

Definition ewma (series : list A) (alpha : A) (horizon : Z) : result A :=
  forecast ← iloc_last series;
  Ok (ewma_loop (Z.to_nat horizon) alpha forecast forecast).

(** ** [linreg_forecast] *)

(** [numpy.arange(n)] *)
Definition arange (n : nat) : list A :=
  map (fun k => num_of_int (Z.of_nat k)) (seq 0 n).

Definition linreg_forecast (y : list A) (horizon : Z) : result A :=
  let x := arange (length y) in
  '(a, b) ← polyfit1 x y;
  let preds :=
    map (fun h => a ⊗ num_of_int (Z.of_nat (length y) - 1 + h) ⊕ b)
        (range 1 (horizon + 1)) in
  iloc_last preds.

(** ** [forecast_next] *)

(** [max(0.0, x)]: the second argument wins only if it is greater. *)
Definition max0 (x : A) : A :=
  if num_ltb num_zero x then x else num_zero.

Definition nonneg (x : A) : Prop := num_leb num_zero x = true.

(** [x or 1.0] *)
Definition or_one (x : A) : A :=
  if num_eqb x num_zero then num_one else x.

Definition auto_switch_message (horizon : Z) : string :=
  "(auto-switch) Using linear regression for horizon=" +:+ pretty horizon.

(** Lines 43-47: the configured method, the long-horizon override and the
    line it prints. *)
Definition choose_method (cfg : Config A) (horizon : Z) : list string * string :=
  let method0 := default "ewma" (forecast cfg ≫= method) in
  if bool_decide (horizon > 3)%Z && bool_decide (method0 = "ewma")
  then ([auto_switch_message horizon], "linreg")
  else ([], method0).

(** Lines 49-55: both series forecast with the chosen method; the two
    arms of the conditional first. *)
Definition inflow_series (df : list (DerivedRow A)) : list A :=
  map (fun r => defects_inflow_total (base r)) df.
Definition outflow_series (df : list (DerivedRow A)) : list A :=
  map (fun r => defects_outflow_total (base r)) df.

Definition predict_ewma (df : list (DerivedRow A)) (cfg : Config A) (horizon : Z)
  : result (A * A) :=
  fc ← match forecast cfg with Some fc => Ok fc | None => Raise (KeyError "forecast") end;
  alpha ← match ewma_alpha fc with Some a => Ok a | None => Raise (KeyError "ewma_alpha") end;
  inflow_pred ← ewma (inflow_series df) alpha horizon;
  outflow_pred ← ewma (outflow_series df) alpha horizon;
  Ok (inflow_pred, outflow_pred).

Definition predict_linreg (df : list (DerivedRow A)) (horizon : Z) : result (A * A) :=
  inflow_pred ← linreg_forecast (inflow_series df) horizon;
  outflow_pred ← linreg_forecast (outflow_series df) horizon;
  Ok (inflow_pred, outflow_pred).

Definition predict (method : string) (df : list (DerivedRow A)) (cfg : Config A)
    (horizon : Z) : result (A * A) :=
  if bool_decide (method = "ewma") then predict_ewma df cfg horizon
  else predict_linreg df horizon.

(** Lines 58-66: the severity mix of the last ten weeks, applied to the
    inflow forecast. *)
Definition severity_forecast (df : list (DerivedRow A)) (inflow_pred : A)
  : list (string * A) :=
  let recent := tail 10 df in
  let mean_of (col : WeekRow A → A) := series_mean (map (fun r => col (base r)) recent) in
  let total := or_one (mean_of defects_inflow_total) in
  let mix := [("critical", mean_of severity_critical_in ⊘ total);
              ("high", mean_of severity_high_in ⊘ total);
              ("medium", mean_of severity_medium_in ⊘ total);
              ("low", mean_of severity_low_in ⊘ total)] in
  map (fun '(k, m) => (k, max0 (round1 (m ⊗ inflow_pred)))) mix.

(** The result pairs what was printed with what was returned or raised. *)
Definition forecast_next (df : list (DerivedRow A)) (cfg : Config A) (horizon : Z)
  : list string * result (A * A * list (string * A)) :=
  let '(printed, method) := choose_method cfg horizon in
  (printed,
   '(inflow_pred, outflow_pred) ← predict method df cfg horizon;
   let sev_pred := severity_forecast df inflow_pred in
   Ok (max0 inflow_pred, max0 outflow_pred, sev_pred)).

(** ** [indicators] *)

Definition flag_inflow : string := "inflow>outflow".
Definition flag_backlog : string := "backlog_high".
Definition flag_spike : string := "severe_spike".

(** The flags of week [i]; [wdf] is [df.iloc[:i+1]] and [row] its last row,
    [df.iloc[i]]. *)
Definition week_flags (th : HealthThresholds A) (i : nat)
    (wdf : list (DerivedRow A)) (row : DerivedRow A) : list string :=
  let flags := [] in
  let N := inflow_gt_outflow_consecutive_weeks th in
  let flags :=
    if bool_decide (Z.of_nat i + 1 >= N)%Z
       && forallb (fun r => num_ltb (defects_outflow_total (base r))
                                    (defects_inflow_total (base r)))
                  (tail N wdf)
    then flags ++ [flag_inflow] else flags in
  let flags :=
    if num_ltb (backlog_healthy_max th) (backlog_total (base row))
    then flags ++ [flag_backlog] else flags in
  let K := critical_severe_window th in
  let severe_sum := series_sum (map severe_inflow (tail K wdf)) in
  let flags :=
    if num_leb (critical_severe_min th) severe_sum
    then flags ++ [flag_spike] else flags in
  flags.

Definition week_status (th : HealthThresholds A) (flags : list string)
    (row : DerivedRow A) : string :=
  if bool_decide (flag_spike ∈ flags)
     || (bool_decide (flag_inflow ∈ flags) && bool_decide (flag_backlog ∈ flags))
  then "red"
  else if negb (bool_decide (flags = [])) then "yellow"
  else if num_leb (defects_inflow_total (base row)) (healthy_max_per_deployment th)
       then "green"
       else "yellow".

(** [",".join(flags)] *)
Definition join_flags (flags : list string) : string :=
  String.concat "," flags.

(** The loop over [range(len(df))]: [seen] holds the rows before week [i],
    [prob] and [status] grow by one entry per week. *)
Fixpoint indicators_loop (th : HealthThresholds A)
    (seen todo : list (DerivedRow A)) (prob status : list string)
  : list string * list string :=
  match todo with
  | [] => (prob, status)
  | row :: rest =>
      let i := length seen in
      let wdf := seen ++ [row] in
      let flags := week_flags th i wdf row in
      let status := status ++ [week_status th flags row] in
      let prob := prob ++ [join_flags flags] in
      indicators_loop th wdf rest prob status
  end.

(** [df[name] = values] for the two new columns. *)
Fixpoint assign_columns (df : list (DerivedRow A)) (prob status : list string)
  : list (IndicatorRow A) :=
  match df, prob, status with
  | r :: df', p :: prob', s :: status' =>
      {| derived := r; problem_flags := p; health_status := s |}
        :: assign_columns df' prob' status'
  | _, _, _ => []
  end.

Definition indicators (df : list (DerivedRow A)) (cfg : Config A)
  : list (IndicatorRow A) :=
  let th := health_thresholds cfg in
  let '(prob, status) := indicators_loop th [] df [] [] in
  assign_columns df prob status.

(** ** [resource_plan] *)

(** [for k, count in sev_pred.items(): total_hours += hp[k] * float(count)] *)
Fixpoint sum_hours (hp : gmap string A) (items : list (string * A)) (total_hours : A)
  : result A :=
  match items with
  | [] => Ok total_hours
  | (k, count) :: rest =>
      h ← getitem hp k;
      sum_hours hp rest (total_hours ⊕ h ⊗ count)
  end.

Definition resource_plan (next_inflow : A) (sev_pred : list (string * A))
    (cfg : Config A) : result (ResourcePlan A) :=
  let hp := hours_per_defect (resources cfg) in
  total_hours ← sum_hours hp sev_pred num_zero;
  let cap := engineer_capacity_hours_per_week (resources cfg) in
  engineers ← (if num_ltb num_zero cap then ceil_int (total_hours ⊘ cap) else Ok 0%Z);
  let qa_hours := total_hours ⊗ qa_share (resources cfg) in
  Ok {| predicted_inflow := round1 next_inflow;
        estimated_total_hours := round1 total_hours;
        recommended_engineers := engineers;
        recommended_qa_hours := round1 qa_hours;
        plan_hours_per_defect := hp |}.

End Pipeline.

(** ** Exact arithmetic: the library numerics over [Q]

    Sums, means, roundings and the least-squares fit of rationals, without
    rounding of the operations and without overflow.  This is the
    arithmetic the specification reasons in; the binary64 roundings, which
    the interpreter computes, follow below. *)

Definition Qsum (l : list Q) : Q := foldr Qplus 0%Q l.

Definition Qmean (l : list Q) : Q := (Qsum l / inject_Z (Z.of_nat (length l)))%Q.

(** Nearest integer, ties to the even one. *)
Definition round_half_even (q : Q) : Z :=
  let f := Qfloor q in
  match (q - inject_Z f ?= 1 # 2)%Q with
  | Lt => f
  | Gt => (f + 1)%Z
  | Eq => if Z.even f then f else (f + 1)%Z
  end.

(** [round(x, 1)]: to one decimal, ties to even. *)
Definition Qround1 (q : Q) : Q := (inject_Z (round_half_even (q * 10)) / 10)%Q.

(** Modelled from the spec: [numpy.polyfit] is a library routine, not part
    of the repository.  At degree 1 it fits [y = a*x + b] by ordinary least
    squares; the model is the solution of the normal equations in closed
    form.  NumPy rejects an empty [x] and vectors of different lengths with
    [TypeError]; a system without a unique solution (a single point) is
    reported as [LinAlgError]. *)
Definition polyfit_ols (x y : list Q) : result (Q * Q) :=
  if bool_decide (length x = 0%nat) then Raise TypeError
  else if bool_decide (length x ≠ length y) then Raise TypeError
  else
    let n := inject_Z (Z.of_nat (length x)) in
    let sx := Qsum x in
    let sy := Qsum y in
    let sxx := Qsum (zip_with Qmult x x) in
    let sxy := Qsum (zip_with Qmult x y) in
    let d := (n * sxx - sx * sx)%Q in
    if Qeq_bool d 0 then Raise LinAlgError
    else
      let a := ((n * sxy - sx * sy) / d)%Q in
      let b := ((sy - a * sx) / n)%Q in
      Ok (a, b).

#[global] Instance Q_rounding : Rounding Q := {|
  round1 := Qround1;
  ceil_int q := Ok (Qceiling q)
|}.

#[global] Instance Q_numerics : Numerics Q := {|
  series_sum := Qsum;
  series_mean := Qmean;
  polyfit1 := polyfit_ols
|}.

(** ** Binary64: the two roundings as the interpreter computes them

    A finite double is [(-1)^s * m * 2^e], which [Prim2SF] gives as
    [S754_finite s m e]. *)

(** [int(numpy.ceil(x))]: the least integer not below [x]; the conversion
    of an infinity raises [OverflowError], that of a NaN [ValueError]. *)
Definition float_ceil_int (x : float) : result Z :=
  match Prim2SF x with
  | S754_zero _ => Ok 0%Z
  | S754_infinity _ => Raise OverflowError
  | S754_nan => Raise ValueError
  | S754_finite s m e =>
      let n := if s then Z.neg m else Z.pos m in
      if (0 <=? e)%Z then Ok (n * 2 ^ e)%Z
      else Ok (- ((- n) / 2 ^ (- e)))%Z
  end.

(** [round(x, 1)] on a Python float.  CPython writes the exact value of
    [x] as a decimal with one fractional digit, correctly rounded with
    ties to the even digit, and reads that decimal back as the nearest
    double.  Infinities, NaN, zeros and doubles without a fractional part
    round to themselves; the sign is kept. *)
Definition float_round1 (x : float) : float :=
  match Prim2SF x with
  | S754_finite s m e =>
      if (0 <=? e)%Z then x
      else
        match round_half_even (Qmake (10 * Z.pos m) (Z.to_pos (2 ^ (- e)))) with
        | Zpos k => SF2Prim (SFdiv prec emax (S754_finite s k 0) (S754_finite false 10 0))
        | _ => if s then PrimFloat.neg_zero else PrimFloat.zero
        end
  | _ => x
  end.

#[global] Instance float_rounding : Rounding float := {|
  round1 := float_round1;
  ceil_int := float_ceil_int
|}.

Definition Qrow (w : string) (i o c h m l : Z) (t b : Q) : WeekRow Q := {|
  week_start := w;
  defects_inflow_total := inject_Z i;
  defects_outflow_total := inject_Z o;
  severity_critical_in := inject_Z c;
  severity_high_in := inject_Z h;
  severity_medium_in := inject_Z m;
  severity_low_in := inject_Z l;
  avg_resolution_time_hours := t;
  backlog_total := b
|}.

(** ** The quantities the specification speaks of *)

Section Closed.
Context {A : Type} `{Arith A}.

Fixpoint num_pow (x : A) (n : nat) : A :=
  match n with
  | O => num_one
  | S n' => x ⊗ num_pow x n'
  end.

(** [last - (last - forecast0) * (1 - alpha)^h] *)
Definition ewma_closed_form (lastv forecast0 alpha : A) (h : nat) : A :=
  lastv ⊖ (lastv ⊖ forecast0) ⊗ num_pow (num_one ⊖ alpha) h.

End Closed.

(** The sum of squared residuals of the line [a*x + b] on the points
    [(x, y)], the quantity ordinary least squares minimises. *)
Definition residual_sum_squares (a b : Q) (x y : list Q) : Q :=
  Qsum (zip_with (fun xi yi => (yi - (a * xi + b)) * (yi - (a * xi + b)))%Q x y).

Definition severities : list string := ["critical"; "high"; "medium"; "low"].

(** The sum over the forecast's severities of [hours_per_defect[sev]]
    times the forecast count, as the specification writes it. *)
Definition weighted_hours (hp : gmap string Q) (sev_pred : list (string * Q)) : Q :=
  Qsum (map (fun kc => default 0 (hp !! kc.1) * kc.2)%Q sev_pred).

(** ** Sample data: the scenario of the specification, section 8 *)

Definition sample_weeks : list (WeekRow Q) :=
  [ Qrow "2024-01-01" 5 4 0 1 2 2 36 1;
    Qrow "2024-01-08" 6 4 0 1 3 2 36 3;
    Qrow "2024-01-15" 7 4 0 1 3 3 36 6;
    Qrow "2024-01-22" 8 4 0 1 4 3 36 10 ].

Definition sample_weights : gmap string Q :=
  <["critical" := 5%Q]> (<["high" := 3%Q]> (<["medium" := 2%Q]> (<["low" := 1%Q]> ∅))).

Definition sample_hours : gmap string Q :=
  <["critical" := 10.01%Q]> (<["high" := 4%Q]> (<["medium" := 2%Q]> (<["low" := 1%Q]> ∅))).

Definition sample_cfg (m : string) (alpha : Q) : Config Q := {|
  severity_weights := sample_weights;
  forecast := Some {| method := Some m; ewma_alpha := Some alpha; horizon_weeks := 1 |};
  health_thresholds := {|
    inflow_gt_outflow_consecutive_weeks := 3;
    backlog_healthy_max := 8%Q;
    critical_severe_window := 4;
    critical_severe_min := 5%Q;
    healthy_max_per_deployment := 5%Q |};
  resources := {|
    hours_per_defect := sample_hours;
    engineer_capacity_hours_per_week := 40%Q;
    qa_share := 0.25%Q |}
|}.

Definition sample_derived : list (DerivedRow Q) :=
  map (derive_row 5 3 2 1)%Q sample_weeks.

(** A frame with sign artifacts. *)
Definition negative_weeks : list (DerivedRow Q) :=
  map (derive_row 5 3 2 1)%Q
    [ Qrow "2024-01-01" (-5) (-4) 1 1 1 1 36 1;
      Qrow "2024-01-08" (-3) (-2) 1 1 1 1 36 3 ].

Definition sample_sev_pred : list (string * Q) :=
  [("critical", 4%Q); ("high", 0%Q); ("medium", 0%Q); ("low", 0%Q)].

(** The scenario's configuration with other planning figures, in exact
    arithmetic and in binary64. *)
Definition planning_cfg (hours : gmap string Q) (cap : Q) : Config Q := {|
  severity_weights := sample_weights;
  forecast := forecast (sample_cfg "ewma" 0.3);
  health_thresholds := health_thresholds (sample_cfg "ewma" 0.3);
  resources := {|
    hours_per_defect := hours;
    engineer_capacity_hours_per_week := cap;
    qa_share := 0.25%Q |}
|}.

Definition planning_cfg_binary64 (hours : gmap string float) (cap : float) : Config float := {|
  severity_weights :=
    <["critical" := 5%float]> (<["high" := 3%float]>
      (<["medium" := 2%float]> (<["low" := 1%float]> ∅)));
  forecast := Some {| method := Some "ewma"; ewma_alpha := Some 0.3%float; horizon_weeks := 1 |};
  health_thresholds := {|
    inflow_gt_outflow_consecutive_weeks := 3;
    backlog_healthy_max := 8%float;
    critical_severe_window := 4;
    critical_severe_min := 5%float;
    healthy_max_per_deployment := 5%float |};
  resources := {|
    hours_per_defect := hours;
    engineer_capacity_hours_per_week := cap;
    qa_share := 0.25%float |}
|}.

Definition sample_hours_binary64 : gmap string float :=
  <["critical" := 10%float]> (<["high" := 4%float]>
    (<["medium" := 2%float]> (<["low" := 1%float]> ∅))).


(** * The command line of [cli.py] *)

Section MainDef.
Context {A : Type} `{Numerics A}.

(** What [main] writes: the two tables and the forecast-and-plan document. *)
Record Report := {
  derived_measures_csv : list (DerivedRow A);
  indicators_csv : list (IndicatorRow A);
  doc_horizon_weeks : Z;
  doc_inflow_total : A;
  doc_outflow_total : A;
  doc_severity_breakdown_inflow : list (string * A);
  doc_resource_plan : ResourcePlan A
}.

(** [args.horizon or int(cfg["forecast"]["horizon_weeks"])] *)
Definition effective_horizon (args_horizon : option Z) (cfg : Config A) : result Z :=
  match args_horizon with
  | Some h => if bool_decide (h ≠ 0%Z) then Ok h else
                match forecast cfg with
                | Some fc => Ok (horizon_weeks fc)
                | None => Raise (KeyError "forecast")
                end
  | None => match forecast cfg with
            | Some fc => Ok (horizon_weeks fc)
            | None => Raise (KeyError "forecast")
            end
  end.

(** [main], from the parsed arguments, the loaded configuration and the
    frame read from the data file to what is written; the closing console
    summary repeats these values. *)
Definition main (args_horizon : option Z) (cfg : Config A) (df : list (WeekRow A))
  : list string * result Report :=
  match effective_horizon args_horizon cfg with
  | Raise e => ([], Raise e)
  | Ok horizon =>
      match derive_measures df cfg with
      | Raise e => ([], Raise e)
      | Ok dfd =>
          let dfi := indicators dfd cfg in
          let '(printed, forecast_result) := forecast_next dfd cfg horizon in
          (printed,
           '(inflow_pred, outflow_pred, sev_pred) ← forecast_result;
           plan ← resource_plan inflow_pred sev_pred cfg;
           Ok {| derived_measures_csv := dfd;
                 indicators_csv := dfi;
                 doc_horizon_weeks := horizon;
                 doc_inflow_total := round1 inflow_pred;
                 doc_outflow_total := round1 outflow_pred;
                 doc_severity_breakdown_inflow := sev_pred;
                 doc_resource_plan := plan |})
      end
  end.
End MainDef.
Arguments Report : clear implicits.

(** * The ingestion script, [fetch_github.py] *)

(** ** Text

    A text is the sequence of its characters, and a character is a code
    point below 256 (Latin-1): the texts the model covers are those
    without characters from U+0100 on. *)

(** [c.lower()]: the letters A-Z and, from U+00C0 to U+00DE without the
    sign U+00D7, the accented capitals have their lower-case form 32 places
    further; every other character below 256 is kept. *)
Definition lower_char (c : ascii) : ascii :=
  let n := nat_of_ascii c in
  if ((65 <=? n)%nat && (n <=? 90)%nat)
     || ((192 <=? n)%nat && (n <=? 222)%nat && negb (n =? 215)%nat)
  then ascii_of_nat (n + 32) else c.

Fixpoint str_lower (s : string) : string :=
  match s with
  | EmptyString => EmptyString
  | String c s' => String (lower_char c) (str_lower s')
  end.

(** The characters below 256 that [str.strip()] removes: the ASCII white
    space, the separators U+001C to U+001F, the next-line control U+0085
    and the no-break space U+00A0. *)
Definition is_space (c : ascii) : bool :=
  let n := nat_of_ascii c in
  (n =? 32)%nat || ((9 <=? n)%nat && (n <=? 13)%nat) || ((28 <=? n)%nat && (n <=? 31)%nat)
  || (n =? 133)%nat || (n =? 160)%nat.

Fixpoint str_lstrip (s : string) : string :=
  match s with
  | EmptyString => EmptyString
  | String c s' => if is_space c then str_lstrip s' else s
  end.

Fixpoint str_rstrip (s : string) : string :=
  match s with
  | EmptyString => EmptyString
  | String c s' =>
      match str_rstrip s' with
      | EmptyString => if is_space c then EmptyString else String c EmptyString
      | t => String c t
      end
  end.

Definition str_strip (s : string) : string := str_rstrip (str_lstrip s).

(** [pat in s] *)
Fixpoint str_contains (pat s : string) : bool :=
  String.prefix pat s ||
  match s with
  | EmptyString => false
  | String _ s' => str_contains pat s'
  end.

(** [s.replace(old, new)] for a non-empty [old]: occurrences are replaced
    from the left, without overlap; [skip] counts the characters of a
    matched occurrence still to pass over. *)
Fixpoint str_replace_from (old new : string) (skip : nat) (s : string) : string :=
  match s with
  | EmptyString => EmptyString
  | String c s' =>
      match skip with
      | S k => str_replace_from old new k s'
      | O =>
          if String.prefix old s
          then new +:+ str_replace_from old new (String.length old - 1) s'
          else String c (str_replace_from old new 0 s')
      end
  end.

Definition str_replace (old new s : string) : string := str_replace_from old new 0 s.

(** ** [severity_from] *)

(** A label of the issue payload; [label_name] is its ["name"] entry. *)
Record Label := { label_name : option string }.

Definition severity_from (labels : list Label) : string :=
  let txt :=
    String.concat " "
      (map (fun l => str_strip (str_lower (default "" (label_name l)))) labels) in
  let normalized := str_replace "severity-" "severity:" (str_replace "bugzilla/" "" txt) in
  if str_contains "severity: critical" normalized || str_contains "p0" normalized
  then "critical"
  else if str_contains "severity: high" normalized || str_contains "p1" normalized
  then "high"
  else if str_contains "severity: low" normalized || str_contains "p3" normalized
  then "low"
  else if str_contains "severity: medium" normalized || str_contains "p2" normalized
  then "medium"
  else if str_contains "critical" normalized then "critical"
  else if str_contains "high" normalized then "high"
  else if str_contains "low" normalized then "low"
  else if str_contains "bug" normalized || str_contains "defect" normalized then "medium"
  else "medium".

(** ** Dates *)

(** A date is its proleptic Gregorian ordinal ([date.toordinal()], day 1
    is Monday 0001-01-01); a datetime is a date and the time elapsed in
    that day, both in UTC as the script makes them. *)
Record datetime := { dt_date : Z; dt_time : Z }.

(** [a <= b] on datetimes *)
Definition dt_leb (a b : datetime) : bool :=
  (dt_date a <? dt_date b)%Z || ((dt_date a =? dt_date b)%Z && (dt_time a <=? dt_time b)%Z).

(** [date.weekday()]: Monday is 0 *)
Definition weekday (d : Z) : Z := ((d + 6) mod 7)%Z.

Definition week_floor (d : datetime) : Z := (dt_date d - weekday (dt_date d))%Z.

(** ** Weekly aggregation: the body of [main] *)

(** An item of the issues listing, as far as the script reads it. *)
Record Issue := {
  is_pull_request : bool;          (* ["pull_request" in it] *)
  created_at : datetime;           (* [it["created_at"]], parsed *)
  closed_at : option datetime;     (* [it.get("closed_at")], parsed when set *)
  labels : list Label              (* [it.get("labels", [])] *)
}.

(** A value of the [created] dictionary. *)
Record Bucket := { inflow : Z; outflow : Z; sev : gmap string Z }.

Definition default_bucket : Bucket := {|
  inflow := 0;
  outflow := 0;
  sev := <["critical" := 0%Z]> (<["high" := 0%Z]> (<["medium" := 0%Z]> (<["low" := 0%Z]> ∅)))
|}.

(** [created[wk]] on the [defaultdict], and [created.get(w, default)] *)
Definition bucket_at (created : gmap Z Bucket) (wk : Z) : Bucket :=
  default default_bucket (created !! wk).

(** [d[k] += 1] on a plain dictionary *)
Definition increment (d : gmap string Z) (k : string) : result (gmap string Z) :=
  n ← getitem d k;
  Ok (<[k := (n + 1)%Z]> d).

(** One turn of the loop over the listing. *)
Definition record_issue (since_dt until_dt : datetime) (created : gmap Z Bucket)
    (it : Issue) : result (gmap Z Bucket) :=
  if is_pull_request it then Ok created
  else if negb (dt_leb since_dt (created_at it) && dt_leb (created_at it) until_dt)
  then Ok created
  else
    let wk := week_floor (created_at it) in
    let sv := severity_from (labels it) in
    let b := bucket_at created wk in
    let created := <[wk := {| inflow := inflow b + 1; outflow := outflow b; sev := sev b |}]> created in
    let b := bucket_at created wk in
    counts ← increment (sev b) sv;
    let created := <[wk := {| inflow := inflow b; outflow := outflow b; sev := counts |}]> created in
    match closed_at it with
    | Some closed =>
        let cwk := week_floor closed in
        let b := bucket_at created cwk in
        Ok (<[cwk := {| inflow := inflow b; outflow := outflow b + 1; sev := sev b |}]> created)
    | None => Ok created
    end.

Fixpoint aggregate (since_dt until_dt : datetime) (items : list Issue)
    (created : gmap Z Bucket) : result (gmap Z Bucket) :=
  match items with
  | [] => Ok created
  | it :: rest =>
      created ← record_issue since_dt until_dt created it;
      aggregate since_dt until_dt rest created
  end.

(** [while d <= end_w: all_weeks.append(d); d = d + timedelta(days=7)];
    the loop runs at most [end_w - start_w + 1] times. *)
Fixpoint weeks_loop (fuel : nat) (d end_w : Z) : list Z :=
  match fuel with
  | O => []
  | S fuel' => if (d <=? end_w)%Z then d :: weeks_loop fuel' (d + 7) end_w else []
  end.

Definition all_weeks (start_w end_w : Z) : list Z :=
  weeks_loop (Z.to_nat (end_w - start_w + 1)) start_w end_w.

Section Rows.
(** [str(w)], the ISO form of a date. *)
Variable isoformat : Z → string.

(** The loop that fills [rows]. *)
Fixpoint build_rows (created : gmap Z Bucket) (weeks : list Z) (running_open : Z)
  : result (list (WeekRow Z)) :=
  match weeks with
  | [] => Ok []
  | w :: rest =>
      let data := bucket_at created w in
      let running_open := Z.max 0 (running_open + inflow data - outflow data) in
      critical ← getitem (sev data) "critical";
      high ← getitem (sev data) "high";
      medium ← getitem (sev data) "medium";
      low ← getitem (sev data) "low";
      rows ← build_rows created rest running_open;
      Ok ({| week_start := isoformat w;
             defects_inflow_total := inflow data;
             defects_outflow_total := outflow data;
             severity_critical_in := critical;
             severity_high_in := high;
             severity_medium_in := medium;
             severity_low_in := low;
             avg_resolution_time_hours := 36%Z;
             backlog_total := running_open |} :: rows)
  end.

(** What the script leaves behind: a message and no file, or the table it
    writes. *)
Inductive FetchOutcome :=
  | NoIssuesFound
  | Wrote (rows : list (WeekRow Z)).

Definition fetch_main (since_dt until_dt : datetime) (items : list Issue)
  : result FetchOutcome :=
  created ← aggregate since_dt until_dt items ∅;
  if bool_decide (size created = 0%nat) then Ok NoIssuesFound
  else
    let weeks := merge_sort Z.le (map_to_list created).*1 in
    start_w ← match head weeks with Some w => Ok w | None => Raise IndexError end;
    end_w ← iloc_last weeks;
    rows ← build_rows created (all_weeks start_w end_w) 0;
    Ok (Wrote rows).
End Rows.

(** ** What the table should hold *)

(** An issue the loop counts: not a pull request, created within the range. *)
Definition accepted (since_dt until_dt : datetime) (it : Issue) : bool :=
  negb (is_pull_request it)
  && dt_leb since_dt (created_at it) && dt_leb (created_at it) until_dt.

Fixpoint count_if (p : Issue → bool) (items : list Issue) : Z :=
  match items with
  | [] => 0
  | it :: rest => ((if p it then 1 else 0) + count_if p rest)%Z
  end.

Definition opened_in (since_dt until_dt : datetime) (w : Z) (it : Issue) : bool :=
  accepted since_dt until_dt it && (week_floor (created_at it) =? w)%Z.

Definition closed_in (since_dt until_dt : datetime) (w : Z) (it : Issue) : bool :=
  accepted since_dt until_dt it
  && match closed_at it with
     | Some closed => (week_floor closed =? w)%Z
     | None => false
     end.

Definition opened_as (since_dt until_dt : datetime) (s : string) (w : Z) (it : Issue) : bool :=
  opened_in since_dt until_dt w it && bool_decide (severity_from (labels it) = s).

(** A week with an accepted issue opened or closed in it. *)
Definition active (since_dt until_dt : datetime) (items : list Issue) (w : Z) : Prop :=
  ∃ it, it ∈ items ∧ (opened_in since_dt until_dt w it = true
                      ∨ closed_in since_dt until_dt w it = true).

(** The backlog after the given weeks, from [running_open]. *)
Definition backlog_after (created : gmap Z Bucket) (running_open : Z) (weeks : list Z) : Z :=
  fold_left (fun acc w =>
               Z.max 0 (acc + inflow (bucket_at created w) - outflow (bucket_at created w)))
            weeks running_open.

(** Every bucket counts the four severities. *)
Definition sev_complete (created : gmap Z Bucket) : Prop :=
  ∀ w s, s ∈ severities → is_Some (sev (bucket_at created w) !! s).

Definition sev_at (created : gmap Z Bucket) (w : Z) (s : string) : Z :=
  default 0%Z (sev (bucket_at created w) !! s).

Definition b2z (b : bool) : Z := if b then 1%Z else 0%Z.

(** ** Characters of a text *)

Fixpoint char_in (c : ascii) (s : string) : bool :=
  match s with
  | EmptyString => false
  | String c' s' => bool_decide (c = c') || char_in c s'
  end.

(** No character of [p] occurs in [s]. *)
Fixpoint chars_apart (p s : string) : bool :=
  match p with
  | EmptyString => true
  | String c p' => negb (char_in c s) && chars_apart p' s
  end.

Fixpoint no_space (p : string) : bool :=
  match p with
  | EmptyString => true
  | String c p' => negb (is_space c) && no_space p'
  end.

(** ** Pagination *)

(** The double quote character, and the marker [rel="next"]. *)
Definition dquote : string := String (ascii_of_nat 34) "".
Definition rel_next : string := "rel=" +:+ dquote +:+ "next" +:+ dquote.

(** [s.find(c)] for a single character: its first index, or [-1]. *)
Fixpoint str_find (c : ascii) (s : string) : Z :=
  match s with
  | EmptyString => (-1)%Z
  | String d s' =>
      if bool_decide (c = d) then 0%Z
      else let r := str_find c s' in if (r <? 0)%Z then (-1)%Z else (r + 1)%Z
  end.

(** [s[i:j]]; a negative index counts from the end. *)
Definition str_slice (s : string) (i j : Z) : string :=
  let n := Z.of_nat (String.length s) in
  let clamp k := if (k <? 0)%Z then Z.max 0 (k + n) else Z.min k n in
  substring (Z.to_nat (clamp i)) (Z.to_nat (clamp j - clamp i)) s.

(** [s.split(sep)] for a single character *)
Fixpoint str_split (sep : ascii) (s : string) : list string :=
  match s with
  | EmptyString => [EmptyString]
  | String c s' =>
      if bool_decide (c = sep) then EmptyString :: str_split sep s'
      else match str_split sep s' with
           | [] => [String c EmptyString]
           | part :: parts => String c part :: parts
           end
  end.

(** The loop over the parts of the [link] header. *)
Fixpoint first_next (parts : list string) : option string :=
  match parts with
  | [] => None
  | part :: rest =>
      if str_contains rel_next part
      then Some (str_slice part (str_find "<" part + 1) (str_find ">" part))
      else first_next rest
  end.

Definition next_link (header : string) : option string :=
  first_next (str_split "," header).

(** What [session.get] returns, as far as [paged] reads it. *)
Inductive Payload :=
  | JsonList (items : list Issue)
  | JsonDict.

Record Response := {
  status_ok : bool;                 (* [raise_for_status()] passes *)
  payload : Payload;                (* [r.json()] *)
  link_header : option string       (* [r.headers["link"]], when present *)
}.

(** How draining the generator ends. *)
Inductive PageEnd := Exhausted | HTTPError.

Section Paged.
(** The server: a state, and the response to a request for [url], sent
    with the query parameters ([true]) or with none. *)
Context {Server : Type} (get : Server → string → bool → Response * Server).

(** The items [paged] yields and how it ends; [None] when the loop has not
    ended after [fuel] requests. *)
Fixpoint paged (fuel : nat) (st : Server) (url : string) (with_params : bool)
  : option (list Issue * PageEnd * Server) :=
  match fuel with
  | O => None
  | S fuel' =>
      let '(r, st) := get st url with_params in
      if negb (status_ok r) then Some ([], HTTPError, st)
      else
        let data := match payload r with JsonList items => items | JsonDict => [] end in
        let next_url := link_header r ≫= next_link in
        match next_url with
        | Some (String c u) =>
            '(rest, ending, st) ← paged fuel' st (String c u) false;
            Some (data ++ rest, ending, st)
        | _ => Some (data, Exhausted, st)
        end
  end.
End Paged.

(** A [link] header whose first part with [rel="next"] points at [u]:
    comma-separated parts, those before it without the marker, then
    [pad<u>tail] with the marker in [tail]. *)
Definition links_to (header u : string) : Prop :=
  ∃ (before after : list string) (pad tail : string),
    header = String.concat "," (before ++ (pad +:+ "<" +:+ u +:+ ">" +:+ tail) :: after)
    ∧ Forall (fun p => char_in "," p = false ∧ str_contains rel_next p = false) before
    ∧ Forall (fun p => char_in "," p = false) after
    ∧ char_in "," pad = false ∧ char_in "<" pad = false ∧ char_in ">" pad = false
    ∧ char_in "," u = false ∧ char_in ">" u = false
    ∧ char_in "," tail = false ∧ str_contains rel_next tail = true.

Definition page_items (r : Response) : list Issue :=
  match payload r with
  | JsonList items => items
  | JsonDict => []
  end.

(** No part of the header carries [rel="next"], or there is no header. *)
Definition no_next (r : Response) : Prop :=
  match link_header r with
  | None => True
  | Some h => Forall (fun p => str_contains rel_next p = false) (str_split "," h)
  end.

Section Session.
Context {Server : Type} (get : Server → string → bool → Response * Server).

(** A session: from state [st], the request for [url] starts a run of pages,
    each linked to the next by a well-formed header, that ends with a page
    without a next link ([Exhausted]) or with a failed request
    ([HTTPError]). *)
Inductive serves : Server → string → bool → list (list Issue) → PageEnd → Server → Prop :=
  | serves_error st url wp r st' :
      get st url wp = (r, st') → status_ok r = false →
      serves st url wp [] HTTPError st'
  | serves_last st url wp r st' :
      get st url wp = (r, st') → status_ok r = true → no_next r →
      serves st url wp [page_items r] Exhausted st'
  | serves_more st url wp r st' h u pages ending st'' :
      get st url wp = (r, st') → status_ok r = true →
      link_header r = Some h → links_to h u → u ≠ "" →
      serves st' u false pages ending st'' →
      serves st url wp (page_items r :: pages) ending st''.

End Session.

(** ** Sample data for the ingestion script *)

Definition sample_label (s : string) : Label := {| label_name := Some s |}.

Definition sample_issue (opened : Z) (closed : option Z) (names : list string) : Issue := {|
  is_pull_request := false;
  created_at := {| dt_date := opened; dt_time := 3600 |};
  closed_at := (fun d => {| dt_date := d; dt_time := 7200 |}) <$> closed;
  labels := map sample_label names
|}.

(** 2024-01-01 is day 738886, a Monday. *)
Definition sample_since : datetime := {| dt_date := 738886; dt_time := 0 |}.
Definition sample_until : datetime := {| dt_date := 739251; dt_time := 0 |}.

Definition sample_issues : list Issue :=
  [ sample_issue 738887 (Some 738900%Z) ["bug"; "P1"];
    sample_issue 738888 None ["severity: low"];
    sample_issue 738910 (Some 738911%Z) [];
    sample_issue 700000 None ["p0"] ].

Definition sample_next_url : string :=
  "https://api.github.com/repositories/1/issues?page=2".

Definition sample_header (u : string) : string :=
  "<https://api.github.com/repositories/1/issues?page=1>; rel=" +:+ dquote +:+ "prev" +:+ dquote
  +:+ ", <" +:+ u +:+ ">; rel=" +:+ dquote +:+ "next" +:+ dquote
  +:+ ", <https://api.github.com/repositories/1/issues?page=9>; rel=" +:+ dquote +:+ "last" +:+ dquote.

(** A server with two pages; its state counts the requests. *)
Definition sample_server (st : nat) (url : string) (with_params : bool) : Response * nat :=
  if with_params
  then ({| status_ok := true;
           payload := JsonList (take 2 sample_issues);
           link_header := Some (sample_header sample_next_url) |},
        S st)
  else ({| status_ok := true;
           payload := JsonList (drop 2 sample_issues);
           link_header := None |},
        S st).

(** A configuration without the [medium] weight, without a [forecast]
    section and without hours for [low]. *)
Definition partial_cfg : Config Q := {|
  severity_weights := <["critical" := 5%Q]> (<["high" := 3%Q]> (<["low" := 1%Q]> ∅));
  forecast := None;
  health_thresholds := health_thresholds (sample_cfg "ewma" 0.3);
  resources := {|
    hours_per_defect := <["critical" := 10%Q]> (<["high" := 4%Q]> (<["medium" := 2%Q]> ∅));
    engineer_capacity_hours_per_week := 40%Q;
    qa_share := 0.25%Q |}
|}.

(** A configuration whose [forecast] section has no [ewma_alpha]. *)
Definition no_alpha_cfg : Config Q := {|
  severity_weights := sample_weights;
  forecast := Some {| method := Some "ewma"; ewma_alpha := None; horizon_weeks := 2 |};
  health_thresholds := health_thresholds (sample_cfg "ewma" 0.3);
  resources := resources (sample_cfg "ewma" 0.3)
|}.

(** * Properties *)

(** ** Basic facts, for any arithmetic *)

Lemma getitem_Some {V} (d : gmap string V) (k : string) (v : V) :
  d !! k = Some v → getitem d k = Ok v.
Proof. intros E. unfold getitem. by rewrite E. Qed.

Lemma iloc_last_Some {T} (s : list T) (v : T) : last s = Some v → iloc_last s = Ok v.
Proof. intros E. unfold iloc_last. by rewrite E. Qed.

Lemma iloc_last_snoc {T} (l : list T) (v : T) : iloc_last (l ++ [v]) = Ok v.
Proof. unfold iloc_last. by rewrite last_snoc. Qed.

Lemma range_from_1 (h : Z) : (1 <= h)%Z → range 1 (h + 1) = range 1 h ++ [h].
Proof.
  intros Hh. unfold range.
  replace (h + 1 - 1)%Z with h by lia.
  replace (Z.to_nat h) with (S (Z.to_nat (h - 1))) by lia.
  rewrite seq_S, map_app. simpl. do 2 f_equal. lia.
Qed.

Lemma range_empty (lo hi : Z) : (hi <= lo)%Z → range lo hi = [].
Proof. intros Hh. unfold range. by replace (Z.to_nat (hi - lo)) with 0%nat by lia. Qed.

Lemma forallb_Forall_true {T} (f : T → bool) (l : list T) :
  forallb f l = true ↔ Forall (fun x => f x = true) l.
Proof.
  induction l as [|x l IH]; simpl.
  - split; [constructor|done].
  - rewrite andb_true_iff, IH. split.
    + intros [? ?]. by constructor.
    + by inversion 1.
Qed.

Section GenericFacts.
Context {A : Type} `{Numerics A}.

Lemma arange_length (n : nat) : length (arange n) = n.
Proof. unfold arange. by rewrite length_map, length_seq. Qed.

Lemma ewma_unfold (series : list A) (alpha : A) (h : Z) (l : A) :
  last series = Some l →
  ewma series alpha h = Ok (ewma_loop (Z.to_nat h) alpha l l).
Proof. intros E. unfold ewma. by rewrite (iloc_last_Some _ _ E). Qed.

Lemma ewma_ok (series : list A) (alpha : A) (h : Z) :
  series ≠ [] → ∃ v, ewma series alpha h = Ok v.
Proof.
  intros Hne. destruct (last series) as [l|] eqn:E.
  - eexists. by apply ewma_unfold.
  - by apply last_None in E.
Qed.

(** *** [derive_measures] *)

(** C4. With the four severity weights configured, [derive_measures]
    returns one derived row per input row, in the input order (row [i] of
    the result carries row [i] of the input), with
    [net_flow = inflow - outflow], [severe_inflow = critical + high],
    [severity_weighted_inflow] the weighted sum of the four severity counts
    and [mttr_hours = avg_resolution_time_hours]. *)
Theorem derive_measures_rowwise (df : list (WeekRow A)) (cfg : Config A)
    (wc wh wm wl : A) :
  severity_weights cfg !! "critical" = Some wc →
  severity_weights cfg !! "high" = Some wh →
  severity_weights cfg !! "medium" = Some wm →
  severity_weights cfg !! "low" = Some wl →
  ∃ out, derive_measures df cfg = Ok out
    ∧ length out = length df
    ∧ ∀ i r, df !! i = Some r →
        ∃ d, out !! i = Some d
          ∧ base d = r
          ∧ net_flow d = defects_inflow_total r ⊖ defects_outflow_total r
          ∧ severe_inflow d = severity_critical_in r ⊕ severity_high_in r
          ∧ severity_weighted_inflow d =
              wc ⊗ severity_critical_in r ⊕ wh ⊗ severity_high_in r
                ⊕ wm ⊗ severity_medium_in r ⊕ wl ⊗ severity_low_in r
          ∧ mttr_hours d = avg_resolution_time_hours r.
Proof.
  intros Hc Hh Hm Hl.
  exists (map (derive_row wc wh wm wl) df).
  split.
  - unfold derive_measures.
    rewrite (getitem_Some _ _ _ Hc). simpl. rewrite (getitem_Some _ _ _ Hh). simpl.
    rewrite (getitem_Some _ _ _ Hm). simpl. rewrite (getitem_Some _ _ _ Hl).
    reflexivity.
  - split; [apply length_map|].
    intros i r Hi. exists (derive_row wc wh wm wl r).
    rewrite list_lookup_fmap, Hi. repeat split.
Qed.

(** *** [indicators] *)

Lemma assign_columns_lookup (df : list (DerivedRow A)) prob status i r p s :
  df !! i = Some r → prob !! i = Some p → status !! i = Some s →
  assign_columns df prob status !! i
    = Some {| derived := r; problem_flags := p; health_status := s |}.
Proof.
  revert prob status i.
  induction df as [|r0 df IH]; intros [|p0 prob] [|s0 status] [|i]; simpl; try discriminate.
  - by intros [= ->] [= ->] [= ->].
  - apply IH.
Qed.

Lemma assign_columns_length (df : list (DerivedRow A)) prob status :
  length prob = length df → length status = length df →
  length (assign_columns df prob status) = length df.
Proof.
  revert prob status.
  induction df as [|r0 df IH]; intros [|p0 prob] [|s0 status] Hp Hs;
    simplify_eq/=; [done|].
  f_equal. by apply IH.
Qed.

(** The loop appends, for each week left, the joined flags and the status
    computed from the rows seen so far. *)
Lemma indicators_loop_spec th (todo seen : list (DerivedRow A)) prob status :
  length prob = length seen → length status = length seen →
  ∃ prob' status',
    indicators_loop th seen todo prob status = (prob ++ prob', status ++ status')
    ∧ length prob' = length todo ∧ length status' = length todo
    ∧ ∀ j row, todo !! j = Some row →
        let flags := week_flags th (length seen + j) (seen ++ take (S j) todo) row in
        prob' !! j = Some (join_flags flags)
        ∧ status' !! j = Some (week_status th flags row).
Proof.
  revert seen prob status.
  induction todo as [|row rest IH]; intros seen prob status Hp Hs.
  - exists [], []. simpl. rewrite !app_nil_r. split_and!; auto.
    intros j r; by rewrite lookup_nil.
  - simpl.
    set (flags := week_flags th (length seen) (seen ++ [row]) row).
    destruct (IH (seen ++ [row]) (prob ++ [join_flags flags])
                 (status ++ [week_status th flags row])) as (p' & s' & E & Lp & Ls & Hj).
    { rewrite !length_app; simpl; lia. }
    { rewrite !length_app; simpl; lia. }
    exists (join_flags flags :: p'), (week_status th flags row :: s').
    rewrite E, <- !app_assoc. simpl. split_and!; auto.
    intros [|j] r Hr; simpl in *.
    + injection Hr as <-. rewrite Nat.add_0_r, take_0. done.
    + specialize (Hj j r Hr). simpl in Hj.
      rewrite length_app in Hj; simpl in Hj.
      rewrite <- app_assoc in Hj; simpl in Hj.
      replace (length seen + S j) with (length seen + 1 + j) by lia.
      apply Hj.
Qed.

Lemma indicators_length (df : list (DerivedRow A)) (cfg : Config A) :
  length (indicators df cfg) = length df.
Proof.
  unfold indicators.
  destruct (indicators_loop_spec (health_thresholds cfg) df [] [] [] eq_refl eq_refl)
    as (p & s & E & Lp & Ls & _).
  rewrite E. simpl. by apply assign_columns_length.
Qed.

Lemma indicators_lookup (df : list (DerivedRow A)) (cfg : Config A) i r :
  df !! i = Some r →
  let th := health_thresholds cfg in
  let flags := week_flags th i (take (S i) df) r in
  indicators df cfg !! i
    = Some {| derived := r; problem_flags := join_flags flags;
              health_status := week_status th flags r |}.
Proof.
  intros Hi th flags. unfold indicators.
  destruct (indicators_loop_spec (health_thresholds cfg) df [] [] [] eq_refl eq_refl)
    as (p & s & E & Lp & Ls & Hj).
  rewrite E. simpl.
  destruct (Hj i r Hi) as [Hp Hs]. simpl in Hp, Hs.
  by apply assign_columns_lookup.
Qed.

Lemma week_status_cases th (flags : list string) (row : DerivedRow A) :
  let red := flag_spike ∈ flags ∨ (flag_inflow ∈ flags ∧ flag_backlog ∈ flags) in
  (week_status th flags row = "red" ↔ red)
  ∧ (¬ red → flags ≠ [] → week_status th flags row = "yellow")
  ∧ (flags = [] →
       week_status th flags row =
         if num_leb (defects_inflow_total (base row)) (healthy_max_per_deployment th)
         then "green" else "yellow").
Proof.
  intros red. unfold week_status, red.
  repeat case_bool_decide; simpl; subst;
    try destruct (num_leb _ _); split_and!; try split; intros; try done; try tauto;
    try set_solver.
Qed.

(** When each flag is raised. *)
Lemma week_flags_raised th (i : nat) (wdf : list (DerivedRow A)) (row : DerivedRow A) :
  let flags := week_flags th i wdf row in
  let N := inflow_gt_outflow_consecutive_weeks th in
  (flag_inflow ∈ flags ↔
     (Z.of_nat i + 1 >= N)%Z
     ∧ Forall (fun r => num_ltb (defects_outflow_total (base r))
                                (defects_inflow_total (base r)) = true) (tail N wdf))
  ∧ (flag_backlog ∈ flags ↔
       num_ltb (backlog_healthy_max th) (backlog_total (base row)) = true)
  ∧ (flag_spike ∈ flags ↔
       num_leb (critical_severe_min th)
         (series_sum (map severe_inflow (tail (critical_severe_window th) wdf))) = true).
Proof.
  intros flags N. unfold flags, week_flags. fold N.
  rewrite <- forallb_Forall_true.
  destruct (forallb _ (tail N wdf)); case_bool_decide; simpl;
    destruct (num_ltb (backlog_healthy_max th) _); simpl;
    destruct (num_leb (critical_severe_min th) _); simpl;
    unfold flag_inflow, flag_backlog, flag_spike;
    rewrite ?elem_of_cons, ?elem_of_nil;
    split_and!; split; intros; destruct_and?; destruct_or?;
    try done; try discriminate; auto.
Qed.

(** C3. For every week of the frame [indicators] returns, with [flags] the
    flags raised for that week (joined into [problem_flags]): the status is
    red exactly when [severe_spike] is raised or both [inflow>outflow] and
    [backlog_high] are; otherwise yellow when some flag is raised; otherwise
    green when the week's inflow is at most [healthy_max_per_deployment]
    and yellow when it is not. *)
Theorem indicators_status_priority (df : list (DerivedRow A)) (cfg : Config A)
    (i : nat) (out : IndicatorRow A) :
  indicators df cfg !! i = Some out →
  ∃ flags : list string,
    df !! i = Some (derived out)
    ∧ flags = week_flags (health_thresholds cfg) i (take (S i) df) (derived out)
    ∧ problem_flags out = join_flags flags
    ∧ let red := flag_spike ∈ flags ∨ (flag_inflow ∈ flags ∧ flag_backlog ∈ flags) in
      let healthy :=
        num_leb (defects_inflow_total (base (derived out)))
                (healthy_max_per_deployment (health_thresholds cfg)) in
      (health_status out = "red" ↔ red)
      ∧ (¬ red → flags ≠ [] → health_status out = "yellow")
      ∧ (flags = [] → healthy = true → health_status out = "green")
      ∧ (flags = [] → healthy = false → health_status out = "yellow").
Proof.
  intros Hout.
  assert (Hlt : i < length df).
  { rewrite <- (indicators_length df cfg). by eapply lookup_lt_Some. }
  destruct (lookup_lt_is_Some_2 df i Hlt) as [r Hr].
  pose proof (indicators_lookup df cfg i r Hr) as E. simpl in E.
  rewrite Hout in E. injection E as ->. simpl.
  eexists. split_and!; try done.
  all: destruct (week_status_cases (health_thresholds cfg)
         (week_flags (health_thresholds cfg) i (take (S i) df) r) r) as (Hred & Hyel & Hnone).
  - apply Hred.
  - apply Hyel.
  - intros E1 E2. rewrite (Hnone E1), E2. done.
  - intros E1 E2. rewrite (Hnone E1), E2. done.
Qed.

(** *** [forecast_next] *)

Lemma max0_nonneg `{!ArithOrder A} (x : A) : nonneg (max0 x).
Proof.
  unfold nonneg, max0. destruct (num_ltb num_zero x) eqn:E.
  - by apply num_ltb_leb_zero.
  - apply num_leb_zero.
Qed.

(** C6. Whenever [forecast_next] returns, the inflow forecast, the outflow
    forecast and each of the four values of the severity breakdown are
    non-negative, whatever the signs in the input frame.  This holds in any
    arithmetic where [0 < x] implies [0 <= x]: exact rationals and
    binary64 alike. *)
Theorem forecast_next_nonneg `{!ArithOrder A} (df : list (DerivedRow A)) (cfg : Config A)
    (horizon : Z) (printed : list string) (inflow outflow : A) (sev : list (string * A)) :
  forecast_next df cfg horizon = (printed, Ok (inflow, outflow, sev)) →
  nonneg inflow ∧ nonneg outflow
  ∧ sev.*1 = ["critical"; "high"; "medium"; "low"]
  ∧ Forall (fun kv => nonneg kv.2) sev.
Proof.
  unfold forecast_next.
  destruct (choose_method cfg horizon) as [pr m].
  destruct (predict m df cfg horizon) as [[ip op]|e]; simpl; [|discriminate].
  intros [= _ <- <- <-].
  split_and!; try apply max0_nonneg; [done|].
  unfold severity_forecast. repeat constructor; simpl; apply max0_nonneg.
Qed.

(** C7. With a configured method that is [ewma] or [linreg] (a missing
    entry counts as [ewma]), the linear-regression arm runs exactly when
    the configured method is [linreg], or is [ewma] with a horizon above 3;
    the EWMA arm runs exactly when the configured method is [ewma] and the
    horizon is at most 3.  The override prints one line. *)
Theorem forecast_next_method_selection (df : list (DerivedRow A)) (cfg : Config A)
    (horizon : Z) :
  let configured := default "ewma" (forecast cfg ≫= method) in
  let chosen := (choose_method cfg horizon).2 in
  let finish (preds : result (A * A)) :=
    '(inflow_pred, outflow_pred) ← preds;
    Ok (max0 inflow_pred, max0 outflow_pred, severity_forecast df inflow_pred) in
  configured = "ewma" ∨ configured = "linreg" →
  (chosen = "linreg" ↔ configured = "linreg" ∨ (configured = "ewma" ∧ horizon > 3)%Z)
  ∧ (chosen = "ewma" ↔ configured = "ewma" ∧ (horizon <= 3)%Z)
  ∧ (chosen = "linreg" →
       (forecast_next df cfg horizon).2 = finish (predict_linreg df horizon))
  ∧ (chosen = "ewma" →
       (forecast_next df cfg horizon).2 = finish (predict_ewma df cfg horizon))
  ∧ (forecast_next df cfg horizon).1 =
       if bool_decide (configured = "ewma" ∧ (horizon > 3)%Z)
       then [auto_switch_message horizon] else [].
Proof.
  intros configured chosen finish Hvalid.
  unfold chosen, forecast_next, choose_method. fold configured.
  destruct Hvalid as [E|E]; rewrite E;
    repeat case_bool_decide; simpl; unfold predict; simpl;
    split_and!; try split; intros; simplify_eq; try done; try lia; try tauto;
    naive_solver lia.
Qed.

(** Any other method name falls through to the linear-regression arm. *)
Lemma predict_other_method (m : string) (df : list (DerivedRow A)) (cfg : Config A)
    (horizon : Z) :
  m ≠ "ewma" → predict m df cfg horizon = predict_linreg df horizon.
Proof. intros Hm. unfold predict. by rewrite bool_decide_eq_false_2. Qed.

End GenericFacts.

(** ** The comparisons of both arithmetics *)

#[global] Instance Q_arith_order : ArithOrder Q.
Proof.
  split.
  - reflexivity.
  - intros x. simpl. intros Hx. apply Qle_bool_iff.
    destruct (Qle_bool x 0) eqn:E; [discriminate|].
    destruct (Qlt_le_dec 0 x) as [Hlt|Hle]; [by apply Qlt_le_weak|].
    apply Qle_bool_iff in Hle. congruence.
Qed.

#[global] Instance float_arith_order : ArithOrder float.
Proof.
  split.
  - reflexivity.
  - intros x. simpl. rewrite ltb_spec, leb_spec.
    unfold SFltb, SFleb. by destruct (SFcompare _ _) as [[]|].
Qed.

(** ** Exact arithmetic *)

Section Exact.
Local Open Scope Q_scope.

(** *** The EWMA recurrence *)

Lemma ewma_loop_closed_form (n : nat) (alpha l f0 : Q) :
  (ewma_loop n alpha l f0 == ewma_closed_form l f0 alpha n)%Q.
Proof.
  revert f0. induction n as [|n IH]; intros f0; simpl.
  - unfold ewma_closed_form. simpl. ring.
  - rewrite IH. unfold ewma_closed_form. simpl. ring.
Qed.

Lemma ewma_loop_fixed (n : nat) (alpha l : Q) : (ewma_loop n alpha l l == l)%Q.
Proof. rewrite ewma_loop_closed_form. unfold ewma_closed_form. simpl. ring. Qed.

Lemma Qpow_nonneg (r : Q) n : (0 <= r)%Q → (0 <= num_pow r n)%Q.
Proof.
  intros Hr. induction n as [|n IH]; simpl; [lra|]. apply Qmult_le_0_compat; auto.
Qed.

(** Bernoulli's bound, without division. *)
Lemma Qpow_decay (alpha : Q) n :
  (0 <= alpha <= 1)%Q →
  (num_pow (1 - alpha) n * (1 + inject_Z (Z.of_nat n) * alpha) <= 1)%Q.
Proof.
  intros Ha. induction n as [|n IH].
  - simpl. change (inject_Z (Z.of_nat 0)) with 0%Q. lra.
  - rewrite Nat2Z.inj_succ. unfold Z.succ. rewrite inject_Z_plus.
    change (inject_Z 1) with 1%Q.
    pose proof (Qpow_nonneg (1 - alpha) n ltac:(lra)) as Hp.
    set (p := num_pow (1 - alpha) n) in *.
    set (k := inject_Z (Z.of_nat n)) in *.
    assert (Hk : (0 <= k)%Q).
    { unfold k. change 0%Q with (inject_Z 0). rewrite <- Zle_Qle. lia. }
    change (num_pow (1 - alpha) (S n)) with ((1 - alpha) * p)%Q.
    assert (E : ((1 - alpha) * p * (1 + (k + 1) * alpha)
                 == p * (1 + k * alpha) - p * ((k + 1) * (alpha * alpha)))%Q) by ring.
    rewrite E.
    assert (0 <= p * ((k + 1) * (alpha * alpha)))%Q.
    { repeat apply Qmult_le_0_compat; lra. }
    lra.
Qed.

Lemma ewma_loop_converges (alpha l f0 eps : Q) :
  (0 < alpha < 1)%Q → (0 < eps)%Q →
  ∃ N : nat, ∀ n, (N ≤ n)%nat → (Qabs (ewma_loop n alpha l f0 - l) < eps)%Q.
Proof.
  intros Ha He.
  set (c := Qabs (l - f0)).
  assert (Hc : (0 <= c)%Q) by apply Qabs_nonneg.
  exists (Z.to_nat (Qceiling (c / (alpha * eps))) + 1)%nat.
  intros n Hn.
  assert (Hk : (c / (alpha * eps) < inject_Z (Z.of_nat n))%Q).
  { eapply Qle_lt_trans; [apply Qle_ceiling|].
    rewrite <- Zlt_Qlt. lia. }
  assert (Hae : (0 < alpha * eps)%Q) by (apply Qmult_lt_0_compat; lra).
  set (k := inject_Z (Z.of_nat n)) in *.
  assert (Hk' : c < k * (alpha * eps)).
  { assert (E : c == c / (alpha * eps) * (alpha * eps)) by (field; lra).
    rewrite E at 1. apply Qmult_lt_compat_r; auto. }
  pose proof (Qpow_decay alpha n ltac:(lra)) as Hd. fold k in Hd.
  pose proof (Qpow_nonneg (1 - alpha) n ltac:(lra)) as Hp.
  set (p := num_pow (1 - alpha) n) in *.
  assert (E : ewma_loop n alpha l f0 - l == - ((l - f0) * p)).
  { rewrite ewma_loop_closed_form. unfold ewma_closed_form. simpl. fold p. ring. }
  rewrite E, Qabs_opp, Qabs_Qmult. fold c. rewrite (Qabs_pos p Hp).
  assert (H1 : c * p <= k * (alpha * eps) * p).
  { apply Qmult_le_compat_r; lra. }
  assert (H2 : 0 <= eps * p) by (apply Qmult_le_0_compat; lra).
  destruct (Qlt_le_dec 0 p) as [Hpos|Hzero].
  - assert (0 < eps * p) by (apply Qmult_lt_0_compat; lra).
    assert (E2 : k * (alpha * eps) * p == eps * (p * (1 + k * alpha)) - eps * p) by ring.
    assert (eps * (p * (1 + k * alpha)) <= eps * 1).
    { apply Qmult_le_l; lra. }
    lra.
  - assert (E0 : p == 0) by lra. rewrite E0. lra.
Qed.

(** *** Sums over [x = 0..n-1] and the least-squares line *)

Lemma Qsum_snoc (l : list Q) (x : Q) : Qsum (l ++ [x]) == Qsum l + x.
Proof. induction l as [|y l IH]; simpl; [ring|]. rewrite IH. ring. Qed.

Lemma arange_S (n : nat) :
  arange (A:=Q) (S n) = arange n ++ [inject_Z (Z.of_nat n)].
Proof. unfold arange. rewrite seq_S, map_app. reflexivity. Qed.

Lemma arange_lookup (n i : nat) :
  (i < n)%nat → arange (A:=Q) n !! i = Some (inject_Z (Z.of_nat i)).
Proof.
  intros Hi. unfold arange. rewrite list_lookup_fmap, lookup_seq_lt by done. reflexivity.
Qed.

Lemma inject_Z_S (n : nat) : inject_Z (Z.of_nat (S n)) == inject_Z (Z.of_nat n) + 1.
Proof. rewrite Nat2Z.inj_succ. unfold Z.succ. rewrite inject_Z_plus. reflexivity. Qed.

Lemma inject_Z_nat_nonneg (n : nat) : 0 <= inject_Z (Z.of_nat n).
Proof. change 0 with (inject_Z 0). rewrite <- Zle_Qle. lia. Qed.

Lemma arange_sum (n : nat) :
  let k := inject_Z (Z.of_nat n) in
  2 * Qsum (arange n) == k * (k - 1).
Proof.
  induction n as [|n IH]; cbv zeta in *.
  - reflexivity.
  - rewrite arange_S, Qsum_snoc, inject_Z_S.
    set (k := inject_Z (Z.of_nat n)) in *.
    assert (E : 2 * (Qsum (arange n) + k) == 2 * Qsum (arange n) + 2 * k) by ring.
    rewrite E, IH. ring.
Qed.

Lemma arange_sum_squares (n : nat) :
  let k := inject_Z (Z.of_nat n) in
  6 * Qsum (zip_with Qmult (arange n) (arange n)) == (k - 1) * k * (2 * k - 1).
Proof.
  induction n as [|n IH]; cbv zeta in *.
  - reflexivity.
  - rewrite arange_S, zip_with_app by done. simpl zip_with.
    rewrite Qsum_snoc, inject_Z_S.
    set (k := inject_Z (Z.of_nat n)) in *.
    set (s := Qsum (zip_with Qmult (arange n) (arange n))) in *.
    assert (E : 6 * (s + k * k) == 6 * s + 6 * (k * k)) by ring.
    rewrite E, IH. ring.
Qed.

(** The determinant of the normal equations on [x = 0..n-1]. *)
Lemma arange_determinant (n : nat) :
  let k := inject_Z (Z.of_nat n) in
  let x := arange n in
  12 * (k * Qsum (zip_with Qmult x x) - Qsum x * Qsum x) == k * k * (k - 1) * (k + 1).
Proof.
  intros k x.
  pose proof (arange_sum n) as H1. pose proof (arange_sum_squares n) as H2.
  cbv zeta in H1, H2. fold k x in H1, H2.
  set (s := Qsum x) in *. set (q := Qsum (zip_with Qmult x x)) in *.
  assert (E : 12 * (k * q - s * s) == 2 * k * (6 * q) - 3 * ((2 * s) * (2 * s))) by ring.
  rewrite E, H1, H2. ring.
Qed.

Lemma arange_determinant_pos (n : nat) :
  (2 ≤ n)%nat →
  let k := inject_Z (Z.of_nat n) in
  let x := arange n in
  0 < k * Qsum (zip_with Qmult x x) - Qsum x * Qsum x.
Proof.
  intros Hn k x. pose proof (arange_determinant n) as E. cbv zeta in E. fold k x in E.
  assert (Hk : 2 <= k).
  { unfold k. change 2 with (inject_Z 2). rewrite <- Zle_Qle. lia. }
  assert (0 < k * k * (k - 1) * (k + 1)).
  { repeat apply Qmult_lt_0_compat; lra. }
  lra.
Qed.

(** Expansion of the sum of squared residuals in the five sums. *)
Lemma residual_sum_squares_expand (a b : Q) (x y : list Q) :
  length x = length y →
  residual_sum_squares a b x y ==
    Qsum (zip_with Qmult y y) - 2 * a * Qsum (zip_with Qmult x y) - 2 * b * Qsum y
    + a * a * Qsum (zip_with Qmult x x) + 2 * a * b * Qsum x
    + b * b * inject_Z (Z.of_nat (length x)).
Proof.
  unfold residual_sum_squares. revert y.
  induction x as [|xi x IH]; intros [|yi y] Hlen; try discriminate.
  - simpl. ring.
  - injection Hlen as Hlen.
    cbn [zip_with Qsum foldr length]. fold (Qsum y) (Qsum x).
    fold (Qsum (zip_with Qmult y y)) (Qsum (zip_with Qmult x y))
      (Qsum (zip_with Qmult x x)).
    unfold Qsum in IH. unfold Qsum.
    rewrite (IH y Hlen), inject_Z_S. ring.
Qed.

Lemma Qsquare_nonneg (w : Q) : 0 <= w * w.
Proof.
  destruct (Qlt_le_dec w 0) as [Hneg|Hpos].
  - assert (E : w * w == (- w) * (- w)) by ring. rewrite E.
    apply Qmult_le_0_compat; lra.
  - by apply Qmult_le_0_compat.
Qed.

Lemma quadratic_form_nonneg (n sx sxx u v : Q) :
  0 < n → 0 <= n * sxx - sx * sx →
  0 <= sxx * (u * u) + 2 * sx * (u * v) + n * (v * v).
Proof.
  intros Hn Hd.
  assert (E : n * (sxx * (u * u) + 2 * sx * (u * v) + n * (v * v))
              == (n * v + sx * u) * (n * v + sx * u) + (n * sxx - sx * sx) * (u * u)) by ring.
  assert (H1 : 0 <= (n * v + sx * u) * (n * v + sx * u)) by apply Qsquare_nonneg.
  assert (H2 : 0 <= (n * sxx - sx * sx) * (u * u)).
  { apply Qmult_le_0_compat; [done|apply Qsquare_nonneg]. }
  assert (H3 : 0 <= n * (sxx * (u * u) + 2 * sx * (u * v) + n * (v * v))) by lra.
  set (t := sxx * (u * u) + 2 * sx * (u * v) + n * (v * v)) in *.
  destruct (Qlt_le_dec t 0) as [Hneg|]; [|done].
  exfalso.
  assert (E' : n * t == - (n * (- t))) by ring.
  assert (0 < n * - t) by (apply Qmult_lt_0_compat; lra). lra.
Qed.

Lemma linear_series_sums (a0 b0 : Q) (x y : list Q) :
  Forall2 (fun xi yi => yi == a0 * xi + b0) x y →
  Qsum y == a0 * Qsum x + b0 * inject_Z (Z.of_nat (length x))
  ∧ Qsum (zip_with Qmult x y) == a0 * Qsum (zip_with Qmult x x) + b0 * Qsum x.
Proof.
  induction 1 as [|xi yi x y Hxy _ [IH1 IH2]].
  - simpl. split; ring.
  - cbn [zip_with Qsum foldr length].
    fold (Qsum y) (Qsum x) (Qsum (zip_with Qmult x y)) (Qsum (zip_with Qmult x x)).
    rewrite inject_Z_S, IH1, IH2, Hxy. split; ring.
Qed.

Section LeastSquares.
Variables (x y : list Q).
Let n := inject_Z (Z.of_nat (length x)).
Let sx := Qsum x.
Let sy := Qsum y.
Let sxx := Qsum (zip_with Qmult x x).
Let sxy := Qsum (zip_with Qmult x y).
Let d := n * sxx - sx * sx.
Let a := (n * sxy - sx * sy) / d.
Let b := (sy - a * sx) / n.
Hypothesis same_length : length x = length y.
Hypothesis n_pos : 0 < n.
Hypothesis d_pos : 0 < d.

Lemma polyfit_ols_value : polyfit_ols x y = Ok (a, b).
Proof.
  unfold polyfit_ols.
  rewrite bool_decide_eq_false_2.
  2:{ intros E. unfold n in n_pos. rewrite E in n_pos. by apply Qlt_irrefl in n_pos. }
  rewrite bool_decide_eq_false_2 by (intros E; by apply E).
  fold n sx sy sxx sxy. fold d.
  destruct (Qeq_bool d 0) eqn:E; [|reflexivity].
  apply Qeq_bool_iff in E. rewrite E in d_pos. by apply Qlt_irrefl in d_pos.
Qed.

Lemma normal_equations : a * sx + n * b == sy ∧ a * sxx + b * sx == sxy.
Proof.
  assert (Hb : n * b == sy - a * sx) by (unfold b; field; lra).
  split; [rewrite Hb; ring|].
  assert (Hd : d * a == n * sxy - sx * sy) by (unfold a; field; lra).
  assert (E : n * (a * sxx + b * sx) == d * a + sx * sy).
  { assert (E1 : n * (a * sxx + b * sx) == a * (n * sxx) + (n * b) * sx) by ring.
    rewrite E1, Hb. unfold d. ring. }
  rewrite Hd in E.
  assert (E2 : n * (a * sxx + b * sx) == n * sxy) by (rewrite E; ring).
  apply (Qmult_inj_l _ _ n); [lra|done].
Qed.

Lemma polyfit_ols_minimises (a' b' : Q) :
  residual_sum_squares a b x y <= residual_sum_squares a' b' x y.
Proof.
  rewrite !residual_sum_squares_expand by done.
  fold n sx sy sxx sxy.
  destruct normal_equations as [N1 N2].
  set (u := a' - a). set (v := b' - b).
  pose proof (quadratic_form_nonneg n sx sxx u v n_pos ltac:(fold d; lra)) as Hq.
  set (syy := Qsum (zip_with Qmult y y)).
  assert (E : syy - 2 * a' * sxy - 2 * b' * sy + a' * a' * sxx + 2 * a' * b' * sx + b' * b' * n
            - (syy - 2 * a * sxy - 2 * b * sy + a * a * sxx + 2 * a * b * sx + b * b * n)
            == sxx * (u * u) + 2 * sx * (u * v) + n * (v * v)
               + 2 * u * (a * sxx + b * sx - sxy) + 2 * v * (a * sx + n * b - sy)).
  { unfold u, v. ring. }
  rewrite N1, N2 in E.
  assert (E' : sxx * (u * u) + 2 * sx * (u * v) + n * (v * v)
            + 2 * u * (sxy - sxy) + 2 * v * (sy - sy)
            == sxx * (u * u) + 2 * sx * (u * v) + n * (v * v)) by ring.
  rewrite E' in E. lra.
Qed.

Lemma polyfit_ols_linear (a0 b0 : Q) :
  Forall2 (fun xi yi => yi == a0 * xi + b0) x y → a == a0 ∧ b == b0.
Proof.
  intros Hlin. destruct (linear_series_sums a0 b0 x y Hlin) as [E1 E2].
  fold n sx sy sxx sxy in E1, E2.
  assert (Ha : a == a0).
  { unfold a. rewrite E1, E2. unfold d. field. fold d. lra. }
  split; [done|].
  unfold b. rewrite Ha, E1. field. lra.
Qed.

End LeastSquares.

Lemma linreg_forecast_value (y : list Q) (h : Z) (a b : Q) :
  polyfit_ols (arange (length y)) y = Ok (a, b) →
  (1 <= h)%Z →
  linreg_forecast y h = Ok (a * inject_Z (Z.of_nat (length y) - 1 + h) + b).
Proof.
  intros E Hh. unfold linreg_forecast. simpl. rewrite E. simpl.
  rewrite range_from_1, map_app by done. simpl. apply iloc_last_snoc.
Qed.

Lemma linreg_forecast_no_horizon (y : list Q) (h : Z) (a b : Q) :
  polyfit_ols (arange (length y)) y = Ok (a, b) →
  (h <= 0)%Z →
  linreg_forecast y h = Raise IndexError.
Proof.
  intros E Hh. unfold linreg_forecast. simpl. rewrite E. simpl.
  rewrite range_empty by lia. reflexivity.
Qed.

Lemma linreg_forecast_empty (h : Z) : linreg_forecast (A:=Q) [] h = Raise TypeError.
Proof. reflexivity. Qed.

Lemma linreg_forecast_single (y0 : Q) (h : Z) : linreg_forecast [y0] h = Raise LinAlgError.
Proof. reflexivity. Qed.


Lemma polyfit_ols_arange (y : list Q) :
  (2 ≤ length y)%nat → ∃ a b, polyfit_ols (arange (length y)) y = Ok (a, b).
Proof.
  intros Hn. set (x := arange (length y)).
  assert (Hlen : length x = length y) by apply arange_length.
  eexists _, _. apply polyfit_ols_value; [done|..].
  - change 0 with (inject_Z 0). rewrite <- Zlt_Qlt, Hlen. lia.
  - rewrite Hlen. by apply arange_determinant_pos.
Qed.

Lemma linreg_forecast_ok (y : list Q) (h : Z) :
  (2 ≤ length y)%nat → (1 <= h)%Z → ∃ v, linreg_forecast y h = Ok v.
Proof.
  intros Hn Hh. destruct (polyfit_ols_arange y Hn) as (a & b & E).
  eexists. by apply linreg_forecast_value.
Qed.

Lemma linreg_forecast_index_error (y : list Q) (h : Z) :
  (2 ≤ length y)%nat → (h <= 0)%Z → linreg_forecast y h = Raise IndexError.
Proof.
  intros Hn Hh. destruct (polyfit_ols_arange y Hn) as (a & b & E).
  by eapply linreg_forecast_no_horizon.
Qed.

(** C2. For a series of [n >= 2] points and a horizon [h >= 1],
    [linreg_forecast] takes the line [a*x + b] that minimises the sum of
    squared residuals over [x = 0..n-1] (ordinary least squares) and
    returns [a*(n-1+h) + b]; when the series is perfectly linear,
    [y_i = a0*i + b0], the fitted line is that one and the forecast is
    [a0*(n-1+h) + b0], in exact arithmetic. *)
Theorem linreg_forecast_least_squares (y : list Q) (h : Z) :
  (2 ≤ length y)%nat → (1 <= h)%Z →
  let n := length y in
  let x := arange n in
  ∃ a b : Q,
    polyfit1 x y = Ok (a, b)
    ∧ (∀ a' b', residual_sum_squares a b x y <= residual_sum_squares a' b' x y)
    ∧ linreg_forecast y h = Ok (a * inject_Z (Z.of_nat n - 1 + h) + b)
    ∧ ∀ a0 b0 : Q,
        (∀ i yi, y !! i = Some yi → yi == a0 * inject_Z (Z.of_nat i) + b0) →
        a == a0 ∧ b == b0
        ∧ a * inject_Z (Z.of_nat n - 1 + h) + b
          == a0 * inject_Z (Z.of_nat n - 1 + h) + b0.
Proof.
  intros Hn Hh n x.
  assert (Hlen : length x = length y) by apply arange_length.
  assert (Hnpos : 0 < inject_Z (Z.of_nat (length x))).
  { change 0 with (inject_Z 0). rewrite <- Zlt_Qlt, Hlen. lia. }
  assert (Hd : 0 < inject_Z (Z.of_nat (length x)) * Qsum (zip_with Qmult x x)
                   - Qsum x * Qsum x).
  { rewrite Hlen. apply arange_determinant_pos. done. }
  pose proof (polyfit_ols_value x y Hlen Hnpos Hd) as Efit.
  eexists _, _. split; [exact Efit|]. split_and!.
  - intros a' b'. by apply polyfit_ols_minimises.
  - by apply linreg_forecast_value.
  - intros a0 b0 Hlin.
    assert (F : Forall2 (fun xi yi => yi == a0 * xi + b0) x y).
    { apply Forall2_same_length_lookup_2; [done|].
      intros i xi yi Hx Hy.
      assert (Hi : (i < n)%nat) by (by eapply lookup_lt_Some).
      unfold x in Hx. rewrite arange_lookup in Hx by done. injection Hx as <-.
      by apply Hlin. }
    destruct (polyfit_ols_linear x y Hnpos Hd a0 b0 F) as [Ea Eb].
    split_and!; [done|done|].
    apply Qplus_comp; [apply Qmult_comp|]; done.
Qed.

(** *** Rounding to one decimal *)

Lemma round_half_even_bounds (q : Q) :
  (Qfloor q <= round_half_even q <= Qfloor q + 1)%Z.
Proof.
  unfold round_half_even.
  destruct (q - inject_Z (Qfloor q) ?= 1 # 2); [destruct (Z.even _)|..]; lia.
Qed.

Lemma round_half_even_mono (x y : Q) :
  x <= y → (round_half_even x <= round_half_even y)%Z.
Proof.
  intros Hxy.
  pose proof (Qfloor_resp_le _ _ Hxy) as Hf.
  pose proof (round_half_even_bounds x) as Bx.
  pose proof (round_half_even_bounds y) as By.
  destruct (Z.eq_dec (Qfloor x) (Qfloor y)) as [E|NE]; [|lia].
  unfold round_half_even in *. rewrite <- E in *.
  set (f := Qfloor x) in *.
  destruct (Qcompare_spec (x - inject_Z f) (1 # 2));
    destruct (Qcompare_spec (y - inject_Z f) (1 # 2));
    try destruct (Z.even f); try lia; exfalso; lra.
Qed.

Lemma Qround1_mono (x y : Q) : x <= y → Qround1 x <= Qround1 y.
Proof.
  intros Hxy. unfold Qround1.
  apply Qmult_le_compat_r; [|by compute].
  rewrite <- Zle_Qle. apply round_half_even_mono. lra.
Qed.

Lemma Qround1_comp (x y : Q) : x == y → Qround1 x == Qround1 y.
Proof.
  intros E. apply Qle_antisym; apply Qround1_mono; lra.
Qed.

(** *** [resource_plan] *)

Lemma sum_hours_total (hp : gmap string Q) (items : list (string * Q)) (t : Q) :
  (∀ k, k ∈ items.*1 → is_Some (hp !! k)) →
  ∃ v, sum_hours hp items t = Ok v ∧ v == t + weighted_hours hp items.
Proof.
  revert t. induction items as [|[k c] items IH]; intros t Hkeys.
  - exists t. split; [done|]. unfold weighted_hours. simpl. ring.
  - destruct (Hkeys k) as [h Hh]; [by constructor|].
    destruct (IH (t + h * c)) as (v & Ev & Hv).
    { intros k' Hk'. apply Hkeys. by constructor. }
    exists v. simpl. rewrite (getitem_Some _ _ _ Hh). simpl. split; [exact Ev|].
    rewrite Hv. unfold weighted_hours. simpl. rewrite Hh. simpl. ring.
Qed.

Lemma sum_hours_mono (hp : gmap string Q) (items items' : list (string * Q)) (t t' v : Q) :
  (∀ k h, hp !! k = Some h → 0 <= h) →
  Forall2 (fun kc kc' => kc.1 = kc'.1 ∧ kc.2 <= kc'.2) items items' →
  t <= t' →
  sum_hours hp items t = Ok v →
  ∃ v', sum_hours hp items' t' = Ok v' ∧ v <= v'.
Proof.
  intros Hhp F. revert t t' v.
  induction F as [|[k c] [k' c'] items items' [Ek Ec] _ IH]; intros t t' v Ht; simpl in *.
  - intros [= <-]. eauto.
  - subst k'. unfold getitem. destruct (hp !! k) as [h|] eqn:Eh; simpl; [|discriminate].
    apply IH.
    pose proof (Hhp k h Eh).
    assert (0 <= h * (c' - c)) by (apply Qmult_le_0_compat; lra).
    lra.
Qed.

(** C8. In exact arithmetic, with [hours_per_defect] complete and a
    forecast over the four severities, [resource_plan] succeeds;
    [estimated_total_hours] is the sum over the forecast of
    [hours_per_defect[sev] * count], rounded to one decimal with ties to
    even; [recommended_engineers] is the ceiling of the unrounded sum
    divided by the weekly capacity when the capacity is positive, and [0],
    without an error, when it is not.  The binary64 run of the same code
    can differ by the rounding of its operations, see
    [resource_plan_binary64_headcount]. *)
Theorem resource_plan_hours_and_engineers (next_inflow : Q) (sev_pred : list (string * Q))
    (cfg : Config Q) :
  let hp := hours_per_defect (resources cfg) in
  let cap := engineer_capacity_hours_per_week (resources cfg) in
  let total := weighted_hours hp sev_pred in
  (∀ k, k ∈ severities → is_Some (hp !! k)) →
  sev_pred.*1 ⊆ severities →
  ∃ plan, resource_plan next_inflow sev_pred cfg = Ok plan
    ∧ estimated_total_hours plan == Qround1 total
    ∧ (0 < cap → recommended_engineers plan = Qceiling (total / cap))
    ∧ (cap <= 0 → recommended_engineers plan = 0%Z).
Proof.
  intros hp cap total Hcomplete Hkeys.
  destruct (sum_hours_total hp sev_pred 0) as (v & Ev & Hv).
  { intros k Hk. apply Hcomplete, Hkeys, Hk. }
  assert (Hv' : v == total) by (rewrite Hv; unfold total; ring).
  unfold resource_plan. fold hp. simpl. rewrite Ev. simpl. fold cap.
  destruct (Qle_bool cap 0) eqn:E; simpl.
  - eexists. split; [reflexivity|]. simpl. split_and!.
    + by apply Qround1_comp.
    + intros Hcap. apply Qle_bool_iff in E. lra.
    + done.
  - eexists. split; [reflexivity|]. simpl. split_and!.
    + by apply Qround1_comp.
    + intros _. apply Qceiling_comp. by rewrite Hv'.
    + intros Hcap. apply Qle_bool_iff in Hcap. congruence.
Qed.

(** C9. In exact arithmetic, with non-negative [hours_per_defect],
    raising one count of a severity forecast (the others unchanged) still
    gives a plan, and lowers neither [estimated_total_hours] nor
    [recommended_engineers].  In binary64 the raised forecast can overflow
    and leave no plan, see [resource_plan_overflow_counterexample]. *)
Theorem resource_plan_monotone (next_inflow next_inflow' : Q)
    (sev_pred : list (string * Q)) (cfg : Config Q)
    (i : nat) (k : string) (count count' : Q) (plan : ResourcePlan Q) :
  (∀ s h, hours_per_defect (resources cfg) !! s = Some h → 0 <= h) →
  sev_pred !! i = Some (k, count) →
  count <= count' →
  resource_plan next_inflow sev_pred cfg = Ok plan →
  ∃ plan',
    resource_plan next_inflow' (<[i := (k, count')]> sev_pred) cfg = Ok plan'
    ∧ estimated_total_hours plan <= estimated_total_hours plan'
    ∧ (recommended_engineers plan <= recommended_engineers plan')%Z.
Proof.
  intros Hhp Hi Hc. unfold resource_plan.
  set (hp := hours_per_defect (resources cfg)) in *.
  set (cap := engineer_capacity_hours_per_week (resources cfg)) in *.
  destruct (sum_hours hp sev_pred num_zero) as [v|e] eqn:Ev; simpl; [|discriminate].
  destruct (sum_hours_mono hp sev_pred (<[i := (k, count')]> sev_pred) 0 0 v Hhp)
    as (v' & Ev' & Hvv'); [|lra|exact Ev|].
  { apply Forall2_same_length_lookup_2; [by rewrite length_insert|].
    intros j kc kc' Hj Hj'.
    destruct (decide (i = j)) as [<-|Hne].
    - rewrite list_lookup_insert_eq in Hj' by (by eapply lookup_lt_Some).
      simplify_eq. simpl. split; [done|lra].
    - rewrite list_lookup_insert_ne in Hj' by done. simplify_eq. split; [done|lra]. }
  rewrite Ev'. simpl.
  destruct (Qle_bool cap 0) eqn:E; simpl; intros [= <-];
    (eexists; split; [reflexivity|]); simpl; (split; [by apply Qround1_mono|]).
  - lia.
  - apply Qceiling_resp_le.
    assert (Hcap : 0 < cap).
    { destruct (Qlt_le_dec 0 cap) as [|Hle]; [done|].
      apply Qle_bool_iff in Hle. congruence. }
    apply Qmult_le_compat_r; [done|]. apply Qlt_le_weak, Qinv_lt_0_compat, Hcap.
Qed.

(** C1. In exact arithmetic, for a non-empty series and [alpha] in (0,1):
    [ewma] returns the result of the recurrence started at the last value,
    which equals [last - (last - forecast0) * (1 - alpha)^h] with
    [forecast0 = last], hence [last]; the recurrence satisfies that closed
    form from any start [forecast0], and converges to [last]. *)
Theorem ewma_closed_form_exact (series : list Q) (alpha lastv : Q) :
  last series = Some lastv →
  0 < alpha < 1 →
  (∀ h : Z, ∃ v, ewma series alpha h = Ok v
      ∧ v = ewma_loop (Z.to_nat h) alpha lastv lastv
      ∧ v == ewma_closed_form lastv lastv alpha (Z.to_nat h)
      ∧ v == lastv)
  ∧ (∀ (forecast0 : Q) (n : nat),
      ewma_loop n alpha lastv forecast0 == ewma_closed_form lastv forecast0 alpha n)
  ∧ (∀ forecast0 eps : Q, 0 < eps →
      ∃ N : nat, ∀ n, (N ≤ n)%nat →
        Qabs (ewma_loop n alpha lastv forecast0 - lastv) < eps).
Proof.
  intros Hlast Halpha. split_and!.
  - intros h. eexists. split; [by apply ewma_unfold|]. split_and!.
    + reflexivity.
    + apply ewma_loop_closed_form.
    + apply ewma_loop_fixed.
  - intros f0 n. apply ewma_loop_closed_form.
  - intros f0 eps Heps. by apply ewma_loop_converges.
Qed.

(** C10. In exact arithmetic [ewma] returns a value equal to the last
    element of the series, for every [alpha] and horizon; in binary64 it
    returns the last element itself when the horizon is not positive (the
    loop does not run). *)
Theorem ewma_returns_last :
  (∀ (series : list Q) (alpha lastv : Q) (h : Z),
      last series = Some lastv →
      ∃ v, ewma series alpha h = Ok v ∧ v == lastv)
  ∧ (∀ (series : list float) (alpha lastv : float) (h : Z),
      last series = Some lastv → (h <= 0)%Z →
      ewma series alpha h = Ok lastv).
Proof.
  split.
  - intros series alpha lastv h Hlast. eexists. split; [by apply ewma_unfold|].
    apply ewma_loop_fixed.
  - intros series alpha lastv h Hlast Hh. rewrite (ewma_unfold _ _ _ _ Hlast).
    by replace (Z.to_nat h) with 0%nat by lia.
Qed.

(** C5. What [forecast_next] does on short series and odd settings.  On
    the EWMA arm it raises [IndexError] when the frame is empty and returns
    for every non-empty frame, whatever [ewma_alpha] and the horizon are.
    On the linear-regression arm it fails on every frame of fewer than two
    rows, whatever the horizon: [TypeError] on an empty frame and
    [LinAlgError] on a single row, both from the fit; on a frame of at
    least two rows it raises [IndexError] when the horizon is not positive
    and returns when it is positive. *)
Theorem forecast_next_failures (df : list (DerivedRow Q)) (cfg : Config Q) (horizon : Z) :
  let chosen := (choose_method cfg horizon).2 in
  let outcome := (forecast_next df cfg horizon).2 in
  (chosen = "ewma" →
     ∀ fc alpha, forecast cfg = Some fc → ewma_alpha fc = Some alpha →
       (df = [] → outcome = Raise IndexError)
       ∧ (df ≠ [] → ∃ v, outcome = Ok v))
  ∧ (chosen ≠ "ewma" →
       (df = [] → outcome = Raise TypeError)
       ∧ (length df = 1%nat → outcome = Raise LinAlgError)
       ∧ ((2 ≤ length df)%nat → (horizon <= 0)%Z → outcome = Raise IndexError)
       ∧ ((2 ≤ length df)%nat → (1 <= horizon)%Z → ∃ v, outcome = Ok v)).
Proof.
  intros chosen outcome. unfold outcome, chosen, forecast_next.
  destruct (choose_method cfg horizon) as [printed m]. simpl. split.
  - intros -> fc alpha Hfc Halpha. unfold predict, predict_ewma.
    rewrite bool_decide_eq_true_2 by done. rewrite Hfc. simpl. rewrite Halpha. simpl. split.
    + intros ->. reflexivity.
    + intros Hne.
      destruct (ewma_ok (inflow_series df) alpha horizon) as [vi Ei].
      { unfold inflow_series. by destruct df. }
      destruct (ewma_ok (outflow_series df) alpha horizon) as [vo Eo].
      { unfold outflow_series. by destruct df. }
      rewrite Ei. simpl. rewrite Eo. simpl. eauto.
  - intros Hm. unfold predict, predict_linreg.
    rewrite bool_decide_eq_false_2 by done. split_and!.
    + intros ->. reflexivity.
    + intros Hone. destruct df as [|r [|r' df]]; try discriminate.
      unfold inflow_series. cbn [map]. by rewrite linreg_forecast_single.
    + intros Hn Hh.
      assert (Hi : (2 ≤ length (inflow_series df))%nat).
      { unfold inflow_series. by rewrite length_map. }
      by rewrite (linreg_forecast_index_error _ _ Hi Hh).
    + intros Hn Hh.
      destruct (linreg_forecast_ok (inflow_series df) horizon) as [vi Ei]; [|done|].
      { unfold inflow_series. by rewrite length_map. }
      destruct (linreg_forecast_ok (outflow_series df) horizon) as [vo Eo]; [|done|].
      { unfold outflow_series. by rewrite length_map. }
      rewrite Ei. simpl. rewrite Eo. simpl. eauto.
Qed.

End Exact.

(** ** The specification's scenario, and binary64 runs *)

Lemma derive_measures_rowwise_witness :
  ∃ out, derive_measures sample_weeks (sample_cfg "ewma" 0.3) = Ok out
    ∧ length out = 4%nat
    ∧ ∀ i r, sample_weeks !! i = Some r →
        ∃ d, out !! i = Some d
          ∧ base d = r
          ∧ net_flow d = (defects_inflow_total r - defects_outflow_total r)%Q
          ∧ severe_inflow d = (severity_critical_in r + severity_high_in r)%Q
          ∧ severity_weighted_inflow d =
              (5 * severity_critical_in r + 3 * severity_high_in r
                + 2 * severity_medium_in r + 1 * severity_low_in r)%Q
          ∧ mttr_hours d = avg_resolution_time_hours r.
Proof.
  exact (derive_measures_rowwise sample_weeks (sample_cfg "ewma" 0.3) 5 3 2 1
           eq_refl eq_refl eq_refl eq_refl)%Q.
Defined.

(** Week 4 of the scenario: both flags raised, status red. *)
Lemma indicators_status_priority_witness :
  ∃ out, indicators sample_derived (sample_cfg "ewma" 0.3) !! 3%nat = Some out
    ∧ problem_flags out = "inflow>outflow,backlog_high"
    ∧ health_status out = "red"
    ∧ ∃ flags : list string,
        problem_flags out = join_flags flags
        ∧ (health_status out = "red" ↔
             flag_spike ∈ flags ∨ (flag_inflow ∈ flags ∧ flag_backlog ∈ flags)).
Proof.
  eexists. split; [vm_compute; reflexivity|]. split; [reflexivity|]. split; [reflexivity|].
  destruct (indicators_status_priority sample_derived (sample_cfg "ewma" 0.3) 3%nat _ eq_refl)
    as (flags & _ & _ & Hjoin & Hred & _).
  exists flags. split; [exact Hjoin|exact Hred].
Defined.

Lemma forecast_next_nonneg_witness :
  ∃ printed inflow outflow sev,
    forecast_next negative_weeks (sample_cfg "ewma" 0.3) 1 = (printed, Ok (inflow, outflow, sev))
    ∧ nonneg inflow ∧ nonneg outflow
    ∧ sev.*1 = ["critical"; "high"; "medium"; "low"]
    ∧ Forall (fun kv => nonneg kv.2) sev.
Proof.
  eexists _, _, _, _. split; [vm_compute; reflexivity|].
  apply (forecast_next_nonneg negative_weeks (sample_cfg "ewma" 0.3) 1 []).
  vm_compute. reflexivity.
Defined.

Lemma forecast_next_method_selection_witness :
  (choose_method (sample_cfg "ewma" 0.3) 4).2 = "linreg"
  ∧ (choose_method (sample_cfg "ewma" 0.3) 3).2 = "ewma"
  ∧ (choose_method (sample_cfg "linreg" 0.3) 1).2 = "linreg".
Proof.
  split_and!.
  - apply (forecast_next_method_selection sample_derived (sample_cfg "ewma" 0.3) 4);
      [by left|]. right. split; [reflexivity|lia].
  - apply (forecast_next_method_selection sample_derived (sample_cfg "ewma" 0.3) 3);
      [by left|]. split; [reflexivity|lia].
  - apply (forecast_next_method_selection sample_derived (sample_cfg "linreg" 0.3) 1);
      [by right|]. by left.
Defined.

Lemma ewma_closed_form_exact_witness :
  ∃ v, ewma [5; 6; 7]%Q (1 # 5) 3 = Ok v
    ∧ (v == ewma_closed_form 7 7 (1 # 5) 3)%Q ∧ (v == 7)%Q.
Proof.
  destruct (ewma_closed_form_exact [5; 6; 7]%Q (1 # 5) 7 eq_refl) as [Hret _].
  { split; reflexivity. }
  destruct (Hret 3%Z) as (v & Ev & _ & Hform & Hlast).
  exists v. split; [exact Ev|]. split; [exact Hform|exact Hlast].
Defined.

(** C1, in binary64: one step with [alpha = 0.2] on a series ending in 7
    returns 7.000000000000001, while the closed form evaluates to 7. *)
Lemma ewma_closed_form_binary64_counterexample :
  ewma [5; 6; 7]%float 0.2%float 1 = Ok 7.000000000000001%float
  ∧ ewma_closed_form 7%float 7%float 0.2%float 1 = 7%float
  ∧ PrimFloat.eqb 7.000000000000001 7 = false
  ∧ ewma [5; 6; 7]%float 0.2%float 1 ≠ Ok (ewma_closed_form 7%float 7%float 0.2%float 1).
Proof.
  split_and!; try (vm_compute; reflexivity).
  intros E.
  apply (f_equal (fun r => match r with Ok v => PrimFloat.eqb v 7 | Raise _ => true end)) in E.
  vm_compute in E. discriminate.
Qed.

Lemma ewma_returns_last_witness :
  (∃ v, ewma [10; 11; 12]%Q 0.3%Q 1 = Ok v ∧ (v == 12)%Q)
  ∧ ewma [10; 11; 12]%float 0.3%float 0 = Ok 12%float.
Proof.
  destruct ewma_returns_last as [HQ HF]. split.
  - exact (HQ [10; 11; 12]%Q 0.3%Q 12%Q 1%Z eq_refl).
  - apply (HF [10; 11; 12]%float 0.3%float 12%float 0%Z); [reflexivity|lia].
Defined.

(** C10, in binary64: one step with [alpha = 0.3] on a series ending in 12
    returns 11.999999999999998, not 12. *)
Lemma ewma_returns_last_binary64_counterexample :
  last [10; 11; 12]%float = Some 12%float
  ∧ ewma [10; 11; 12]%float 0.3%float 1 = Ok 11.999999999999998%float
  ∧ PrimFloat.eqb 11.999999999999998 12 = false
  ∧ ewma [10; 11; 12]%float 0.3%float 1 ≠ Ok 12%float.
Proof.
  split_and!; try (vm_compute; reflexivity).
  intros E.
  apply (f_equal (fun r => match r with Ok v => PrimFloat.eqb v 12 | Raise _ => true end)) in E.
  vm_compute in E. discriminate.
Qed.

Lemma linreg_forecast_least_squares_witness :
  ∃ a b : Q,
    polyfit1 (arange 4) [5; 6; 7; 8]%Q = Ok (a, b)
    ∧ (a == 1)%Q ∧ (b == 5)%Q
    ∧ linreg_forecast [5; 6; 7; 8]%Q 4 = Ok (a * inject_Z (4 - 1 + 4) + b)%Q
    ∧ (a * inject_Z (4 - 1 + 4) + b == 12)%Q.
Proof.
  destruct (linreg_forecast_least_squares [5; 6; 7; 8]%Q 4) as (a & b & Efit & _ & Eval & Hlin).
  { simpl. lia. }
  { lia. }
  destruct (Hlin 1 5)%Q as (Ha & Hb & Hf).
  { intros [|[|[|[|i]]]] yi; simpl; intros [= <-]; reflexivity. }
  exists a, b. split; [exact Efit|]. split; [exact Ha|]. split; [exact Hb|].
  split; [exact Eval|]. rewrite Hf. reflexivity.
Defined.

Lemma forecast_next_failures_witness :
  (forecast_next [] (sample_cfg "ewma" 0.3) 1).2 = Raise IndexError
  ∧ (∃ v, (forecast_next sample_derived (sample_cfg "ewma" 0.3) 1).2 = Ok v)
  ∧ (forecast_next [] (sample_cfg "linreg" 0.3) 1).2 = Raise TypeError
  ∧ (forecast_next (take 1 sample_derived) (sample_cfg "linreg" 0.3) 1).2 = Raise LinAlgError
  ∧ (forecast_next sample_derived (sample_cfg "linreg" 0.3) 0).2 = Raise IndexError
  ∧ (∃ v, (forecast_next sample_derived (sample_cfg "linreg" 0.3) 1).2 = Ok v).
Proof.
  split_and!.
  - destruct (forecast_next_failures [] (sample_cfg "ewma" 0.3) 1) as [He _].
    destruct (He eq_refl _ _ eq_refl eq_refl) as [Hempty _]. by apply Hempty.
  - destruct (forecast_next_failures sample_derived (sample_cfg "ewma" 0.3) 1) as [He _].
    destruct (He eq_refl _ _ eq_refl eq_refl) as [_ Hok]. by apply Hok.
  - destruct (forecast_next_failures [] (sample_cfg "linreg" 0.3) 1) as [_ Hl].
    destruct (Hl ltac:(discriminate)) as (Hempty & _ & _ & _). by apply Hempty.
  - destruct (forecast_next_failures (take 1 sample_derived) (sample_cfg "linreg" 0.3) 1)
      as [_ Hl].
    destruct (Hl ltac:(discriminate)) as (_ & Hone & _ & _). by apply Hone.
  - destruct (forecast_next_failures sample_derived (sample_cfg "linreg" 0.3) 0) as [_ Hl].
    destruct (Hl ltac:(discriminate)) as (_ & _ & Hidx & _). apply Hidx; simpl; lia.
  - destruct (forecast_next_failures sample_derived (sample_cfg "linreg" 0.3) 1) as [_ Hl].
    destruct (Hl ltac:(discriminate)) as (_ & _ & _ & Hok). apply Hok; simpl; lia.
Defined.

(** C5: [ewma_alpha = 2] lies outside (0,1) and a horizon of [0] is not
    positive, yet [forecast_next] returns a forecast in both cases; an empty
    frame raises [IndexError]. *)
Lemma forecast_next_accepts_invalid_settings :
  ¬ (0 < 2 < 1)%Q
  ∧ (forecast_next sample_derived (sample_cfg "ewma" 2) 1).2
    = Ok (8, 4, [("critical", 0); ("high", 1.2); ("medium", 3.7); ("low", 3.1)])%Q
  ∧ (forecast_next sample_derived (sample_cfg "ewma" 0.3) 0).2
    = Ok (8, 4, [("critical", 0); ("high", 1.2); ("medium", 3.7); ("low", 3.1)])%Q
  ∧ (forecast_next [] (sample_cfg "ewma" 0.3) 1).2 = Raise IndexError.
Proof.
  split_and!; try (vm_compute; reflexivity).
  intros [_ Hlt]. by vm_compute in Hlt.
Qed.

Lemma resource_plan_hours_and_engineers_witness :
  ∃ plan, resource_plan 8%Q sample_sev_pred (sample_cfg "ewma" 0.3) = Ok plan
    ∧ (estimated_total_hours plan == Qround1 (weighted_hours sample_hours sample_sev_pred))%Q
    ∧ recommended_engineers plan
      = Qceiling (weighted_hours sample_hours sample_sev_pred / 40).
Proof.
  destruct (resource_plan_hours_and_engineers 8%Q sample_sev_pred (sample_cfg "ewma" 0.3))
    as (plan & Eplan & Hest & Hpos & _).
  { intros k Hk. unfold severities in Hk.
    repeat (apply elem_of_cons in Hk as [->|Hk]; [by eexists|]).
    by apply elem_of_nil in Hk. }
  { simpl. done. }
  exists plan. split; [exact Eplan|]. split; [exact Hest|].
  apply Hpos. reflexivity.
Defined.

(** C8: four critical defects at 10.01 hours each make 40.04 hours.  The
    plan reports [estimated_total_hours = 40.0], not the sum, and
    [recommended_engineers = 2], which is not the ceiling of the reported
    hours over the capacity of 40. *)
Lemma resource_plan_rounding_counterexample :
  ∃ plan, resource_plan 8%Q sample_sev_pred (sample_cfg "ewma" 0.3) = Ok plan
    ∧ (weighted_hours sample_hours sample_sev_pred == 40.04)%Q
    ∧ (estimated_total_hours plan == 40)%Q
    ∧ ¬ (estimated_total_hours plan == weighted_hours sample_hours sample_sev_pred)%Q
    ∧ recommended_engineers plan = 2%Z
    ∧ Qceiling (estimated_total_hours plan / 40) = 1%Z
    ∧ recommended_engineers plan ≠ Qceiling (estimated_total_hours plan / 40).
Proof.
  eexists. split; [vm_compute; reflexivity|]. simpl.
  split_and!; try (vm_compute; reflexivity); vm_compute; discriminate.
Qed.

Lemma resource_plan_monotone_witness :
  ∃ plan plan',
    resource_plan 8%Q sample_sev_pred (sample_cfg "ewma" 0.3) = Ok plan
    ∧ resource_plan 8%Q (<[1%nat := ("high", 3%Q)]> sample_sev_pred) (sample_cfg "ewma" 0.3)
      = Ok plan'
    ∧ (estimated_total_hours plan <= estimated_total_hours plan')%Q
    ∧ (recommended_engineers plan <= recommended_engineers plan')%Z.
Proof.
  assert (E : ∃ plan, resource_plan 8%Q sample_sev_pred (sample_cfg "ewma" 0.3) = Ok plan)
    by (eexists; vm_compute; reflexivity).
  destruct E as [plan E]. exists plan.
  destruct (resource_plan_monotone 8%Q 8%Q sample_sev_pred (sample_cfg "ewma" 0.3)
              1%nat "high" 0%Q 3%Q plan) as (plan' & Eplan' & Hest & Heng).
  - intros s h. simpl. unfold sample_hours.
    destruct (decide (s = "critical")) as [->|]; [intros [= <-]; discriminate|].
    destruct (decide (s = "high")) as [->|]; [intros [= <-]; discriminate|].
    destruct (decide (s = "medium")) as [->|]; [intros [= <-]; discriminate|].
    destruct (decide (s = "low")) as [->|]; [intros [= <-]; discriminate|].
    rewrite !lookup_insert_ne by done. by rewrite lookup_empty.
  - reflexivity.
  - discriminate.
  - exact E.
  - exists plan'. split; [exact E|]. split; [exact Eplan'|]. split; [exact Hest|exact Heng].
Defined.

(** C8, in binary64.  The code adds, multiplies and divides in binary64:
    three defects at 0.1 hours make 0.30000000000000004 hours, more than a
    capacity of 0.3, and the plan recommends 2 engineers, where the exact
    quotient is 1 and so is the exact plan.  Likewise [round(0.35, 1)] is
    0.3, the double 0.35 lying below the tie, where the exact tie goes to
    0.4. *)
Lemma resource_plan_binary64_headcount :
  (∃ plan, resource_plan 3%float [("critical", 3%float)]
             (planning_cfg_binary64 (<["critical" := 0.1%float]> ∅) 0.3%float) = Ok plan
     ∧ recommended_engineers plan = 2%Z)
  ∧ (∃ plan, resource_plan 3%Q [("critical", 3%Q)]
               (planning_cfg (<["critical" := 0.1%Q]> ∅) 0.3%Q) = Ok plan
       ∧ recommended_engineers plan = 1%Z)
  ∧ round1 0.35%float = 0.3%float
  ∧ (round1 0.35%Q == 0.4)%Q.
Proof.
  split_and!.
  - eexists. split; [vm_compute; reflexivity|reflexivity].
  - eexists. split; [vm_compute; reflexivity|reflexivity].
  - vm_compute. reflexivity.
  - vm_compute. reflexivity.
Qed.

(** C9, in binary64: at 10 hours per critical defect, one defect gives a
    plan of 10 hours and 1 engineer; with the count raised to 1e308 the
    total overflows to infinity and [int(numpy.ceil(inf))] raises
    [OverflowError], so the raised forecast has no plan at all. *)
Lemma resource_plan_overflow_counterexample :
  let cfg := planning_cfg_binary64 sample_hours_binary64 40%float in
  let sev_pred :=
    [("critical", 1%float); ("high", 0%float); ("medium", 0%float); ("low", 0%float)] in
  sev_pred !! 0%nat = Some ("critical", 1%float)
  ∧ PrimFloat.leb 1 1e308 = true
  ∧ (∃ plan, resource_plan 8%float sev_pred cfg = Ok plan
       ∧ estimated_total_hours plan = 10%float
       ∧ recommended_engineers plan = 1%Z)
  ∧ resource_plan 8%float (<[0%nat := ("critical", 1e308%float)]> sev_pred) cfg
    = Raise OverflowError.
Proof.
  split_and!; try (vm_compute; reflexivity).
  eexists. split; [vm_compute; reflexivity|]. split; reflexivity.
Qed.

(** * Further properties *)

(** ** [cli.py]: errors, composition and [main] *)

Section GenericExtras.
Context {A : Type} `{Numerics A}.

(** X1. [indicators] never looks ahead: the rows it returns for a frame
    stay the same when further weeks are appended to the frame. *)
Theorem indicators_prefix (df more : list (DerivedRow A)) (cfg : Config A) :
  take (length df) (indicators (df ++ more) cfg) = indicators df cfg.
Proof.
  apply list_eq. intros i.
  destruct (decide (i < length df)) as [Hi|Hi].
  - rewrite lookup_take_lt by done.
    destruct (lookup_lt_is_Some_2 df i Hi) as [r Hr].
    rewrite (indicators_lookup df cfg i r Hr).
    rewrite (indicators_lookup (df ++ more) cfg i r) by (by apply lookup_app_l_Some).
    simpl. rewrite take_app_le by lia. reflexivity.
  - rewrite lookup_take_ge by lia.
    symmetry. apply lookup_ge_None. rewrite indicators_length. lia.
Qed.

Lemma week_flags_sublist th (i : nat) (wdf : list (DerivedRow A)) (row : DerivedRow A) :
  sublist (week_flags th i wdf row) [flag_inflow; flag_backlog; flag_spike].
Proof.
  unfold week_flags.
  destruct (_ && _); destruct (num_ltb _ _); destruct (num_leb _ _); simpl;
    repeat first [ apply sublist_nil | apply sublist_skip | apply sublist_cons ].
Qed.

(** X2. The flags of a week are written in their order of evaluation:
    [problem_flags] joins a sub-list of [inflow>outflow], [backlog_high],
    [severe_spike], each at most once. *)
Theorem indicators_flags_order (df : list (DerivedRow A)) (cfg : Config A)
    (i : nat) (out : IndicatorRow A) :
  indicators df cfg !! i = Some out →
  ∃ flags : list string,
    problem_flags out = join_flags flags
    ∧ sublist flags [flag_inflow; flag_backlog; flag_spike].
Proof.
  intros Hout.
  assert (Hlt : i < length df).
  { rewrite <- (indicators_length df cfg). by eapply lookup_lt_Some. }
  destruct (lookup_lt_is_Some_2 df i Hlt) as [r Hr].
  pose proof (indicators_lookup df cfg i r Hr) as E. simpl in E.
  rewrite Hout in E. injection E as ->. simpl.
  eexists. split; [reflexivity|]. apply week_flags_sublist.
Qed.

Lemma derive_measures_ok_iff (df : list (WeekRow A)) (cfg : Config A) :
  (∃ out, derive_measures df cfg = Ok out)
  ↔ ∀ k, k ∈ severities → is_Some (severity_weights cfg !! k).
Proof.
  unfold derive_measures, getitem, severities. split.
  - intros [out E] k Hk.
    destruct (severity_weights cfg !! "critical") eqn:E1; simpl in E; [|discriminate].
    destruct (severity_weights cfg !! "high") eqn:E2; simpl in E; [|discriminate].
    destruct (severity_weights cfg !! "medium") eqn:E3; simpl in E; [|discriminate].
    destruct (severity_weights cfg !! "low") eqn:E4; simpl in E; [|discriminate].
    repeat (apply elem_of_cons in Hk as [->|Hk]; [by eexists|]).
    by apply elem_of_nil in Hk.
  - intros Hall.
    destruct (Hall "critical") as [? ->]; [repeat constructor|].
    destruct (Hall "high") as [? ->]; [repeat constructor|].
    destruct (Hall "medium") as [? ->]; [repeat constructor|].
    destruct (Hall "low") as [? ->]; [repeat constructor|].
    simpl. eauto.
Qed.

(** X3. When a severity weight is missing, [derive_measures] raises
    [KeyError] for the first missing one in the order critical, high,
    medium, low, whatever the frame holds. *)
Theorem derive_measures_missing_weight (df : list (WeekRow A)) (cfg : Config A)
    (present : list string) (k : string) (rest : list string) :
  severities = present ++ k :: rest →
  (∀ k', k' ∈ present → is_Some (severity_weights cfg !! k')) →
  severity_weights cfg !! k = None →
  derive_measures df cfg = Raise (KeyError k).
Proof.
  unfold severities, derive_measures, getitem. intros Hsplit Hpre Hk.
  destruct present as [|p1 [|p2 [|p3 [|p4 present]]]]; simplify_eq/=.
  - by rewrite Hk.
  - destruct (Hpre "critical") as [? ->]; [repeat constructor|]. simpl. by rewrite Hk.
  - destruct (Hpre "critical") as [? ->]; [repeat constructor|].
    destruct (Hpre "high") as [? ->]; [repeat constructor|]. simpl. by rewrite Hk.
  - destruct (Hpre "critical") as [? ->]; [repeat constructor|].
    destruct (Hpre "high") as [? ->]; [repeat constructor|].
    destruct (Hpre "medium") as [? ->]; [repeat constructor|]. simpl. by rewrite Hk.
  - by destruct present.
Qed.

Lemma sum_hours_missing (hp : gmap string A) (pre : list (string * A)) (k : string) (c : A)
    (post : list (string * A)) (t : A) :
  (∀ k', k' ∈ pre.*1 → is_Some (hp !! k')) →
  hp !! k = None →
  sum_hours hp (pre ++ (k, c) :: post) t = Raise (KeyError k).
Proof.
  revert t. induction pre as [|[k0 c0] pre IH]; intros t Hpre Hk; simpl.
  - unfold getitem. by rewrite Hk.
  - destruct (Hpre k0) as [h Hh]; [by constructor|].
    rewrite (getitem_Some _ _ _ Hh). simpl. apply IH; [|done].
    intros k' Hk'. apply Hpre. by constructor.
Qed.

Lemma sum_hours_ok (hp : gmap string A) (items : list (string * A)) (t : A) :
  (∀ k, k ∈ items.*1 → is_Some (hp !! k)) → ∃ v, sum_hours hp items t = Ok v.
Proof.
  revert t. induction items as [|[k c] items IH]; intros t Hkeys; simpl; [eauto|].
  destruct (Hkeys k) as [h Hh]; [by constructor|].
  rewrite (getitem_Some _ _ _ Hh). simpl. apply IH.
  intros k' Hk'. apply Hkeys. by constructor.
Qed.

(** Without a positive capacity, also one that is not a number, the plan
    has no engineers and no error is raised, in any arithmetic. *)
Lemma resource_plan_zero_capacity (next_inflow : A) (sev_pred : list (string * A))
    (cfg : Config A) :
  (∀ k, k ∈ sev_pred.*1 → is_Some (hours_per_defect (resources cfg) !! k)) →
  num_ltb num_zero (engineer_capacity_hours_per_week (resources cfg)) = false →
  ∃ plan, resource_plan next_inflow sev_pred cfg = Ok plan
    ∧ recommended_engineers plan = 0%Z.
Proof.
  intros Hkeys Hcap. unfold resource_plan.
  destruct (sum_hours_ok _ _ num_zero Hkeys) as [t ->]. simpl. rewrite Hcap. simpl.
  eexists. split; reflexivity.
Qed.

(** X4. [resource_plan] raises [KeyError] for the first severity of the
    forecast, in its iteration order, that has no entry in
    [hours_per_defect]. *)
Theorem resource_plan_missing_hours (next_inflow : A) (cfg : Config A)
    (pre : list (string * A)) (k : string) (c : A) (post : list (string * A)) :
  (∀ k', k' ∈ pre.*1 → is_Some (hours_per_defect (resources cfg) !! k')) →
  hours_per_defect (resources cfg) !! k = None →
  resource_plan next_inflow (pre ++ (k, c) :: post) cfg = Raise (KeyError k).
Proof.
  intros Hpre Hk. unfold resource_plan.
  by rewrite (sum_hours_missing _ pre k c post _ Hpre Hk).
Qed.

(** X6. Without a [forecast] section the method defaults to [ewma]: a
    horizon of at most 3 raises [KeyError] for [forecast] and prints
    nothing, a longer horizon switches to linear regression, prints the
    notice and never reads the section. *)
Theorem forecast_next_without_forecast_section (df : list (DerivedRow A)) (cfg : Config A)
    (horizon : Z) :
  forecast cfg = None →
  ((horizon <= 3)%Z → forecast_next df cfg horizon = ([], Raise (KeyError "forecast")))
  ∧ ((horizon > 3)%Z →
       forecast_next df cfg horizon =
         ([auto_switch_message horizon],
          '(inflow_pred, outflow_pred) ← predict_linreg df horizon;
          Ok (max0 inflow_pred, max0 outflow_pred, severity_forecast df inflow_pred))).
Proof.
  intros Hf. unfold forecast_next, choose_method. rewrite Hf. simpl. split; intros Hh.
  - rewrite bool_decide_eq_false_2 by lia. simpl.
    unfold predict, predict_ewma. rewrite Hf. reflexivity.
  - rewrite bool_decide_eq_true_2 by lia. reflexivity.
Qed.

(** X7. On the EWMA arm a [forecast] section without [ewma_alpha] raises
    [KeyError] for it before any data is read, also on an empty frame. *)
Theorem forecast_next_missing_alpha (df : list (DerivedRow A)) (cfg : Config A)
    (fc : ForecastCfg A) (horizon : Z) :
  forecast cfg = Some fc →
  ewma_alpha fc = None →
  (choose_method cfg horizon).2 = "ewma" →
  forecast_next df cfg horizon = ([], Raise (KeyError "ewma_alpha")).
Proof.
  intros Hf Ha. unfold forecast_next, choose_method. rewrite Hf. simpl.
  case_match; simpl; intros Hc; [discriminate|]. rewrite Hc.
  unfold predict, predict_ewma. simpl. rewrite Hf. simpl. rewrite Ha. reflexivity.
Qed.

Lemma indicators_derived (df : list (DerivedRow A)) (cfg : Config A) :
  map derived (indicators df cfg) = df.
Proof.
  apply list_eq. intros i. rewrite list_lookup_fmap.
  destruct (df !! i) as [r|] eqn:Hr.
  - by rewrite (indicators_lookup df cfg i r Hr).
  - rewrite (proj2 (lookup_ge_None _ _)); [done|].
    rewrite indicators_length. by apply lookup_ge_None.
Qed.

Lemma derive_measures_base (df : list (WeekRow A)) (cfg : Config A) out :
  derive_measures df cfg = Ok out → map base out = df.
Proof.
  unfold derive_measures.
  destruct (getitem _ "critical"); simpl; [|discriminate].
  destruct (getitem _ "high"); simpl; [|discriminate].
  destruct (getitem _ "medium"); simpl; [|discriminate].
  destruct (getitem _ "low"); simpl; [|discriminate].
  intros [= <-]. rewrite map_map. simpl. apply map_id.
Qed.

(** X8. What a successful run of [main] writes is consistent: the derived
    table carries the input rows in order, the indicators table carries the
    derived rows in order, the document's horizon is the one chosen from
    the arguments, the breakdown lists the four severities, the plan's
    [predicted_inflow] is the document's [inflow_total] and its
    [hours_per_defect] is the configured one. *)
Theorem main_report_consistent (args_horizon : option Z) (cfg : Config A)
    (df : list (WeekRow A)) (printed : list string) (rep : Report A) :
  main args_horizon cfg df = (printed, Ok rep) →
  map base (derived_measures_csv rep) = df
  ∧ map derived (indicators_csv rep) = derived_measures_csv rep
  ∧ effective_horizon args_horizon cfg = Ok (doc_horizon_weeks rep)
  ∧ (doc_severity_breakdown_inflow rep).*1 = severities
  ∧ predicted_inflow (doc_resource_plan rep) = doc_inflow_total rep
  ∧ plan_hours_per_defect (doc_resource_plan rep) = hours_per_defect (resources cfg).
Proof.
  unfold main.
  destruct (effective_horizon args_horizon cfg) as [h|e]; [|discriminate].
  destruct (derive_measures df cfg) as [dfd|e] eqn:Ed; [|discriminate].
  unfold forecast_next. destruct (choose_method cfg h) as [pr m].
  destruct (predict m dfd cfg h) as [[ip op]|e]; simpl; [|discriminate].
  unfold resource_plan.
  destruct (sum_hours _ _ _) as [t|e]; simpl; [|discriminate].
  destruct (if num_ltb _ _ then _ else _) as [engineers|e]; simpl; [|discriminate].
  intros [= _ <-]. simpl. split_and!; try done.
  - by eapply derive_measures_base.
  - apply indicators_derived.
Qed.

End GenericExtras.

Section ExactExtras.
Local Open Scope Q_scope.

(** X5. With a positive capacity, the engineers [resource_plan] recommends
    cover the unrounded hours of the forecast, and one engineer fewer would
    not. *)
Theorem resource_plan_headcount_covers (next_inflow : Q) (sev_pred : list (string * Q))
    (cfg : Config Q) (plan : ResourcePlan Q) :
  let cap := engineer_capacity_hours_per_week (resources cfg) in
  let total := weighted_hours (hours_per_defect (resources cfg)) sev_pred in
  0 < cap →
  resource_plan next_inflow sev_pred cfg = Ok plan →
  total <= inject_Z (recommended_engineers plan) * cap
  ∧ inject_Z (recommended_engineers plan - 1) * cap < total.
Proof.
  intros cap total Hcap. unfold resource_plan.
  set (hp := hours_per_defect (resources cfg)) in *.
  destruct (sum_hours hp sev_pred num_zero) as [v|e] eqn:Ev; simpl; [|discriminate].
  fold cap.
  assert (Hv : v == total).
  { destruct (sum_hours_total hp sev_pred 0) as (v' & Ev' & Hv').
    - clear -Ev. revert Ev. generalize (num_zero (A:=Q)).
      induction sev_pred as [|[k c] items IH]; intros t Ev k' Hk'.
      + by apply elem_of_nil in Hk'.
      + simpl in *. unfold getitem in Ev.
        destruct (hp !! k) as [h|] eqn:Eh; simpl in Ev; [|discriminate].
        apply elem_of_cons in Hk' as [->|Hk']; [by eexists|]. by eapply IH.
    - simpl in Ev. rewrite Ev in Ev'. injection Ev' as <-. rewrite Hv'. unfold total. ring. }
  destruct (Qle_bool cap 0) eqn:E.
  { apply Qle_bool_iff in E. lra. }
  simpl. intros [= <-]. simpl.
  pose proof (Qle_ceiling (v / cap)) as Hup.
  pose proof (Qceiling_lt (v / cap)) as Hlo.
  assert (Ev2 : v == v / cap * cap) by (field; lra).
  split.
  - rewrite <- Hv. rewrite Ev2 at 1. apply Qmult_le_compat_r; lra.
  - rewrite <- Hv. rewrite Ev2 at 2. apply Qmult_lt_compat_r; [lra|].
    exact Hlo.
Qed.

Lemma predict_ok (m : string) (df : list (DerivedRow Q)) (cfg : Config Q)
    (fc : ForecastCfg Q) (alpha : Q) (h : Z) :
  forecast cfg = Some fc → ewma_alpha fc = Some alpha →
  (2 ≤ length df)%nat → (1 <= h)%Z →
  ∃ v, predict m df cfg h = Ok v.
Proof.
  intros Hf Ha Hn Hh. unfold predict. case_bool_decide.
  - unfold predict_ewma. rewrite Hf. simpl. rewrite Ha. simpl.
    destruct (ewma_ok (inflow_series df) alpha h) as [vi ->].
    { unfold inflow_series. destruct df; [simpl in Hn; lia|done]. }
    destruct (ewma_ok (outflow_series df) alpha h) as [vo ->].
    { unfold outflow_series. destruct df; [simpl in Hn; lia|done]. }
    simpl. eauto.
  - unfold predict_linreg.
    destruct (linreg_forecast_ok (inflow_series df) h) as [vi ->]; [|done|].
    { unfold inflow_series. by rewrite length_map. }
    destruct (linreg_forecast_ok (outflow_series df) h) as [vo ->]; [|done|].
    { unfold outflow_series. by rewrite length_map. }
    simpl. eauto.
Qed.

(** X10. For a configuration with every section and key of [Config]
    present ([health_thresholds] and its five keys, [resources] with the
    capacity and [qa_share], [forecast] with [horizon_weeks]), [main] runs
    to the end, in exact arithmetic, on a frame of at least two weeks with
    the four weights, the four hours-per-defect entries, [ewma_alpha] and
    a horizon of at least 1, for any method name; both tables have one row
    per input week. *)
Theorem main_succeeds (args_horizon : option Z) (cfg : Config Q) (df : list (WeekRow Q))
    (fc : ForecastCfg Q) (alpha : Q) (h : Z) :
  (∀ k, k ∈ severities → is_Some (severity_weights cfg !! k)) →
  (∀ k, k ∈ severities → is_Some (hours_per_defect (resources cfg) !! k)) →
  forecast cfg = Some fc →
  ewma_alpha fc = Some alpha →
  effective_horizon args_horizon cfg = Ok h →
  (1 <= h)%Z →
  (2 ≤ length df)%nat →
  ∃ rep, (main args_horizon cfg df).2 = Ok rep
    ∧ length (derived_measures_csv rep) = length df
    ∧ length (indicators_csv rep) = length df
    ∧ doc_horizon_weeks rep = h.
Proof.
  intros Hw Hhp Hf Ha Heff Hh Hn. unfold main. rewrite Heff.
  destruct (proj2 (derive_measures_ok_iff df cfg) Hw) as [dfd Ed]. rewrite Ed.
  assert (Hlen : length dfd = length df).
  { pose proof (derive_measures_base df cfg dfd Ed) as Eb.
    apply (f_equal length) in Eb. by rewrite length_map in Eb. }
  unfold forecast_next. destruct (choose_method cfg h) as [pr m].
  destruct (predict_ok m dfd cfg fc alpha h Hf Ha) as [[ip op] Ep]; [lia|done|].
  rewrite Ep. simpl. unfold resource_plan.
  destruct (sum_hours_ok (hours_per_defect (resources cfg))
              (severity_forecast dfd ip) num_zero) as [t Et].
  { intros k Hk. apply Hhp. exact Hk. }
  rewrite Et. simpl.
  destruct (Qle_bool _ 0); simpl; (eexists; split; [reflexivity|]); simpl;
    (split_and!; [done| |done]); by rewrite indicators_length.
Qed.
End ExactExtras.

(** ** [fetch_github.py]: weeks, severities and the weekly table *)

(** X11. [week_floor] returns the Monday of the week: a day of weekday 0,
    at most six days before the given day, and the same for every day of
    that week. *)
Theorem week_floor_monday (d : datetime) :
  weekday (week_floor d) = 0%Z
  ∧ (week_floor d <= dt_date d < week_floor d + 7)%Z
  ∧ ∀ (d' : datetime),
      (week_floor d <= dt_date d' < week_floor d + 7)%Z → week_floor d' = week_floor d.
Proof.
  unfold week_floor, weekday. split_and!; try intros d' ?;
    Z.div_mod_to_equations; lia.
Qed.

Lemma weekday_week_floor (d : datetime) : weekday (week_floor d) = 0%Z.
Proof. unfold week_floor, weekday. Z.div_mod_to_equations. lia. Qed.

Lemma severity_from_range (labels : list Label) : severity_from labels ∈ severities.
Proof.
  unfold severity_from, severities.
  repeat match goal with |- context [if ?b then _ else _] => destruct b end;
    repeat constructor.
Qed.

(** ** The [created] dictionary *)

Lemma bucket_at_insert (created : gmap Z Bucket) (k w : Z) (b : Bucket) :
  bucket_at (<[k := b]> created) w = if decide (k = w) then b else bucket_at created w.
Proof.
  unfold bucket_at. rewrite lookup_insert. by destruct (decide (k = w)).
Qed.

Lemma sev_complete_empty : sev_complete ∅.
Proof.
  intros w s Hs. unfold bucket_at. rewrite lookup_empty. simpl.
  unfold severities in Hs.
  repeat (apply elem_of_cons in Hs as [->|Hs]; [by eexists|]).
  by apply elem_of_nil in Hs.
Qed.

Ltac week_cases :=
  repeat (rewrite ?bucket_at_insert; case_decide); subst; simpl;
  rewrite ?Z.eqb_refl;
  repeat match goal with
         | H : ?a ≠ ?b |- context [(?a =? ?b)%Z] => rewrite (proj2 (Z.eqb_neq a b) H)
         end;
  simpl; try lia.

Lemma record_issue_spec (since_dt until_dt : datetime) (created : gmap Z Bucket) (it : Issue) :
  sev_complete created →
  ∃ created',
    record_issue since_dt until_dt created it = Ok created'
    ∧ sev_complete created'
    ∧ (∀ w, inflow (bucket_at created' w)
            = (inflow (bucket_at created w) + b2z (opened_in since_dt until_dt w it))%Z)
    ∧ (∀ w, outflow (bucket_at created' w)
            = (outflow (bucket_at created w) + b2z (closed_in since_dt until_dt w it))%Z)
    ∧ (∀ w s, sev_at created' w s
              = (sev_at created w s + b2z (opened_as since_dt until_dt s w it))%Z)
    ∧ (∀ w, is_Some (created' !! w) ↔
            is_Some (created !! w)
            ∨ opened_in since_dt until_dt w it = true
            ∨ closed_in since_dt until_dt w it = true).
Proof.
  intros Hc. unfold record_issue, opened_as, opened_in, closed_in, accepted.
  destruct (is_pull_request it); simpl.
  { exists created. split_and!; try done; intros; try lia.
    split; [by left|]. by intros [?|[?|?]]. }
  destruct (dt_leb since_dt (created_at it)) eqn:Hr1,
           (dt_leb (created_at it) until_dt) eqn:Hr2; simpl.
  2-4: exists created; split_and!; try done; intros; try lia;
       (split; [by left|]; by intros [?|[?|?]]).
  set (wk := week_floor (created_at it)).
  set (sv := severity_from (labels it)).
  rewrite bucket_at_insert, decide_True by done. simpl.
  destruct (Hc wk sv (severity_from_range _)) as [n Hn].
  clearbody wk sv.
  unfold increment. rewrite (getitem_Some _ _ _ Hn). simpl.
  rewrite insert_insert_eq.
  set (b1 := {| inflow := inflow (bucket_at created wk) + 1;
                outflow := outflow (bucket_at created wk);
                sev := <[sv := (n + 1)%Z]> (sev (bucket_at created wk)) |}).
  assert (Hc1 : sev_complete (<[wk := b1]> created)).
  { intros w s Hs. rewrite bucket_at_insert. case_decide; [|by apply Hc].
    subst w. simpl. rewrite lookup_insert. case_decide; [by eexists|by apply Hc]. }
  assert (Hsev1 : ∀ w s, sev_at (<[wk := b1]> created) w s
            = (sev_at created w s
               + b2z ((wk =? w)%Z && bool_decide (sv = s)))%Z).
  { intros w s. unfold sev_at. rewrite bucket_at_insert.
    destruct (decide (wk = w)) as [<-|Hne].
    - rewrite Z.eqb_refl. simpl. rewrite lookup_insert.
      destruct (decide (sv = s)) as [<-|Hs].
      + rewrite bool_decide_eq_true_2 by done. rewrite Hn. simpl. lia.
      + rewrite bool_decide_eq_false_2 by done. simpl. lia.
    - rewrite (proj2 (Z.eqb_neq wk w) Hne). simpl. lia. }
  destruct (closed_at it) as [closed|]; simpl.
  - set (cwk := week_floor closed). clearbody cwk.
    eexists. split; [reflexivity|]. split_and!.
    + intros w s Hs. rewrite bucket_at_insert. case_decide; [|by apply Hc1].
      subst w. simpl. by apply Hc1.
    + intros w. week_cases.
    + intros w. week_cases.
    + intros w s. unfold sev_at at 1. rewrite bucket_at_insert.
      destruct (decide (cwk = w)) as [<-|Hne]; simpl; apply Hsev1.
    + intros w. rewrite !lookup_insert_is_Some.
      destruct (decide (cwk = w)) as [E1|E1]; destruct (decide (wk = w)) as [E2|E2];
        rewrite ?(proj2 (Z.eqb_eq _ _) E1), ?(proj2 (Z.eqb_eq _ _) E2),
          ?(proj2 (Z.eqb_neq _ _) E1), ?(proj2 (Z.eqb_neq _ _) E2);
        simpl; intuition (try discriminate; try congruence).
  - eexists. split; [reflexivity|]. split_and!.
    + exact Hc1.
    + intros w. week_cases.
    + intros w. week_cases.
    + exact Hsev1.
    + intros w. rewrite lookup_insert_is_Some.
      destruct (decide (wk = w)) as [E2|E2];
        rewrite ?(proj2 (Z.eqb_eq _ _) E2), ?(proj2 (Z.eqb_neq _ _) E2); simpl;
        intuition (try discriminate; try congruence).
Qed.

Lemma aggregate_spec (since_dt until_dt : datetime) (items : list Issue)
    (created : gmap Z Bucket) :
  sev_complete created →
  ∃ created',
    aggregate since_dt until_dt items created = Ok created'
    ∧ sev_complete created'
    ∧ (∀ w, inflow (bucket_at created' w)
            = (inflow (bucket_at created w)
               + count_if (opened_in since_dt until_dt w) items)%Z)
    ∧ (∀ w, outflow (bucket_at created' w)
            = (outflow (bucket_at created w)
               + count_if (closed_in since_dt until_dt w) items)%Z)
    ∧ (∀ w s, sev_at created' w s
              = (sev_at created w s + count_if (opened_as since_dt until_dt s w) items)%Z)
    ∧ (∀ w, is_Some (created' !! w) ↔
            is_Some (created !! w) ∨ active since_dt until_dt items w).
Proof.
  revert created. induction items as [|it rest IH]; intros created Hc; simpl.
  - exists created. split_and!; try done; intros; try lia.
    split; [by left|]. intros [?|(it & Hit & _)]; [done|]. by apply elem_of_nil in Hit.
  - destruct (record_issue_spec since_dt until_dt created it Hc)
      as (c1 & E1 & Hc1 & Hin1 & Hout1 & Hsev1 & Hk1).
    rewrite E1. simpl.
    destruct (IH c1 Hc1) as (c2 & E2 & Hc2 & Hin2 & Hout2 & Hsev2 & Hk2).
    exists c2. split; [exact E2|]. split; [exact Hc2|]. split_and!.
    + intros w. rewrite Hin2, Hin1. unfold b2z. lia.
    + intros w. rewrite Hout2, Hout1. unfold b2z. lia.
    + intros w s. rewrite Hsev2, Hsev1. unfold b2z. lia.
    + intros w. rewrite Hk2, Hk1. unfold active. split.
      * intros [[?|Hit]|(it' & Hin & Hact)]; [by left|..].
        -- right. exists it. split; [by constructor|done].
        -- right. exists it'. split; [by constructor|done].
      * intros [?|(it' & Hin & Hact)]; [by left; left|].
        apply elem_of_cons in Hin as [->|Hin]; [by left; right|].
        right. by exists it'.
Qed.

Lemma count_if_nonneg (p : Issue → bool) (items : list Issue) : (0 <= count_if p items)%Z.
Proof. induction items as [|it rest IH]; simpl; [done|]. destruct (p it); lia. Qed.

(** Each counted issue has one severity. *)
Lemma count_if_by_severity (since_dt until_dt : datetime) (w : Z) (items : list Issue) :
  (count_if (opened_as since_dt until_dt "critical" w) items
   + count_if (opened_as since_dt until_dt "high" w) items
   + count_if (opened_as since_dt until_dt "medium" w) items
   + count_if (opened_as since_dt until_dt "low" w) items
   = count_if (opened_in since_dt until_dt w) items)%Z.
Proof.
  induction items as [|it rest IH]; simpl; [done|].
  rewrite <- IH. unfold opened_as.
  destruct (opened_in since_dt until_dt w it); simpl; [|lia].
  pose proof (severity_from_range (labels it)) as Hr. unfold severities in Hr.
  repeat (apply elem_of_cons in Hr as [->|Hr];
          [repeat case_bool_decide; simplify_eq; simpl; lia|]).
  by apply elem_of_nil in Hr.
Qed.

(** ** The weeks of the table *)

Lemma weeks_loop_spec (fuel : nat) (d end_w : Z) :
  (end_w - d < 7 * Z.of_nat fuel)%Z →
  weeks_loop fuel d end_w
  = map (fun k => (d + 7 * Z.of_nat k)%Z) (seq 0 (Z.to_nat ((end_w - d) / 7 + 1))).
Proof.
  revert d. induction fuel as [|fuel IH]; intros d Hf; simpl.
  - replace (Z.to_nat ((end_w - d) / 7 + 1)) with 0%nat; [done|].
    Z.div_mod_to_equations. lia.
  - destruct (d <=? end_w)%Z eqn:E.
    + apply Z.leb_le in E.
      replace (Z.to_nat ((end_w - d) / 7 + 1))
        with (S (Z.to_nat ((end_w - (d + 7)) / 7 + 1)))
        by (Z.div_mod_to_equations; lia).
      simpl. f_equal; [lia|].
      rewrite IH by lia. rewrite <- seq_shift, map_map.
      apply map_ext. intros k. lia.
    + apply Z.leb_gt in E.
      replace (Z.to_nat ((end_w - d) / 7 + 1)) with 0%nat; [done|].
      Z.div_mod_to_equations. lia.
Qed.

Lemma all_weeks_spec (start_w end_w : Z) :
  all_weeks start_w end_w
  = map (fun k => (start_w + 7 * Z.of_nat k)%Z)
        (seq 0 (Z.to_nat ((end_w - start_w) / 7 + 1))).
Proof. unfold all_weeks. apply weeks_loop_spec. lia. Qed.

Lemma sorted_bounds (l : list Z) (a b : Z) :
  StronglySorted Z.le l → head l = Some a → last l = Some b →
  a ∈ l ∧ b ∈ l ∧ ∀ x, x ∈ l → (a <= x <= b)%Z.
Proof.
  intros Hs. revert a b. induction Hs as [|y l Hs IH Hall]; intros a b Ha Hb; [done|].
  simpl in Ha. injection Ha as ->.
  destruct l as [|z l].
  - simpl in Hb. injection Hb as ->. split_and!; [by constructor|by constructor|].
    intros x Hx. apply list_elem_of_singleton in Hx as ->. lia.
  - change (last (a :: z :: l)) with (last (z :: l)) in Hb.
    destruct (IH z b eq_refl Hb) as (Hz & Hbl & Hbound).
    split_and!; [by constructor|by constructor|].
    intros x Hx. apply elem_of_cons in Hx as [->|Hx].
    + rewrite Forall_forall in Hall. pose proof (Hall b Hbl). lia.
    + rewrite Forall_forall in Hall. pose proof (Hall x Hx).
      pose proof (Hbound x Hx). lia.
Qed.

Section RowsFacts.
Variable isoformat : Z → string.

Lemma build_rows_spec (created : gmap Z Bucket) (weeks : list Z) (running_open : Z) :
  sev_complete created →
  ∃ rows,
    build_rows isoformat created weeks running_open = Ok rows
    ∧ length rows = length weeks
    ∧ ∀ i w, weeks !! i = Some w →
        rows !! i = Some {|
          week_start := isoformat w;
          defects_inflow_total := inflow (bucket_at created w);
          defects_outflow_total := outflow (bucket_at created w);
          severity_critical_in := sev_at created w "critical";
          severity_high_in := sev_at created w "high";
          severity_medium_in := sev_at created w "medium";
          severity_low_in := sev_at created w "low";
          avg_resolution_time_hours := 36%Z;
          backlog_total := backlog_after created running_open (take (S i) weeks) |}.
Proof.
  intros Hc. revert running_open.
  induction weeks as [|w rest IH]; intros running_open; simpl.
  - exists []. split_and!; done.
  - assert (Hget : ∀ s, s ∈ severities →
              getitem (sev (bucket_at created w)) s = Ok (sev_at created w s)).
    { intros s Hs. destruct (Hc w s Hs) as [n Hn]. unfold sev_at. rewrite Hn.
      by apply getitem_Some. }
    rewrite !Hget by (unfold severities; repeat constructor). simpl.
    destruct (IH (Z.max 0 (running_open + inflow (bucket_at created w)
                            - outflow (bucket_at created w)))) as (rows & E & Hlen & Hrows).
    rewrite E. simpl. eexists. split; [reflexivity|]. split; [simpl; by f_equal|].
    intros [|i] w' Hw'; simpl in *.
    + by injection Hw' as <-.
    + by apply Hrows.
Qed.

(** What [fetch_main] computes, in one statement. *)
Lemma fetch_main_spec (since_dt until_dt : datetime) (items : list Issue) :
  ∃ created,
    sev_complete created
    ∧ (∀ w, inflow (bucket_at created w) = count_if (opened_in since_dt until_dt w) items)
    ∧ (∀ w, outflow (bucket_at created w) = count_if (closed_in since_dt until_dt w) items)
    ∧ (∀ w s, s ∈ severities →
         sev_at created w s = count_if (opened_as since_dt until_dt s w) items)
    ∧ (∀ w, is_Some (created !! w) ↔ active since_dt until_dt items w)
    ∧ ((¬ (∃ w, active since_dt until_dt items w)
        ∧ fetch_main isoformat since_dt until_dt items = Ok NoIssuesFound)
       ∨ (∃ start_w end_w rows,
            fetch_main isoformat since_dt until_dt items = Ok (Wrote rows)
            ∧ active since_dt until_dt items start_w
            ∧ active since_dt until_dt items end_w
            ∧ (∀ w, active since_dt until_dt items w → (start_w <= w <= end_w)%Z)
            ∧ build_rows isoformat created (all_weeks start_w end_w) 0 = Ok rows)).
Proof.
  destruct (aggregate_spec since_dt until_dt items ∅ sev_complete_empty)
    as (created & Eagg & Hc & Hin & Hout & Hsev & Hkeys).
  exists created. split; [exact Hc|].
  assert (Hkeys' : ∀ w, is_Some (created !! w) ↔ active since_dt until_dt items w).
  { intros w. rewrite Hkeys. rewrite lookup_empty. split; [|by right].
    intros [[? ?]|?]; [discriminate|done]. }
  split_and!.
  - intros w. rewrite Hin. unfold bucket_at. rewrite lookup_empty. simpl. lia.
  - intros w. rewrite Hout. unfold bucket_at. rewrite lookup_empty. simpl. lia.
  - intros w s Hs. rewrite Hsev. unfold sev_at, bucket_at. rewrite lookup_empty. simpl.
    unfold severities in Hs.
    repeat (apply elem_of_cons in Hs as [->|Hs]; [done|]). by apply elem_of_nil in Hs.
  - exact Hkeys'.
  - unfold fetch_main. rewrite Eagg. simpl. case_bool_decide as Hsize.
    + left. split; [|done]. intros [w Hw]. apply Hkeys' in Hw as [b Hb].
      apply map_size_empty_iff in Hsize. rewrite Hsize in Hb. by rewrite lookup_empty in Hb.
    + right.
      set (ks := (map_to_list created).*1).
      assert (Hks : ∀ w, w ∈ ks ↔ is_Some (created !! w)).
      { intros w. unfold ks. rewrite list_elem_of_fmap. split.
        - intros ([k b] & -> & Hkb). apply elem_of_map_to_list in Hkb. by eexists.
        - intros [b Hb]. exists (w, b). split; [done|]. by apply elem_of_map_to_list. }
      assert (Hperm := merge_sort_Permutation Z.le ks).
      assert (Hsorted := StronglySorted_merge_sort Z.le ks).
      set (weeks := merge_sort Z.le ks) in *.
      assert (Hne : weeks ≠ []).
      { intros E. rewrite E in Hperm. symmetry in Hperm. apply Permutation_nil_r in Hperm.
        unfold ks in Hperm. apply fmap_nil_inv in Hperm.
        apply map_to_list_empty_iff in Hperm. apply Hsize. by rewrite Hperm. }
      destruct (head weeks) as [start_w|] eqn:Ehead; [|by destruct weeks].
      destruct (last weeks) as [end_w|] eqn:Elast; [|by apply last_None in Elast].
      unfold iloc_last. rewrite Elast. simpl.
      destruct (sorted_bounds weeks start_w end_w Hsorted Ehead Elast) as (Hs & He & Hb).
      destruct (build_rows_spec created (all_weeks start_w end_w) 0 Hc) as (rows & Erows & _).
      rewrite Erows. simpl. exists start_w, end_w, rows. split_and!; try done.
      * apply Hkeys', Hks. by rewrite <- Hperm.
      * apply Hkeys', Hks. by rewrite <- Hperm.
      * intros w Hw. apply Hb. rewrite Hperm. by apply Hks, Hkeys'.
Qed.

Lemma active_monday (since_dt until_dt : datetime) (items : list Issue) (w : Z) :
  active since_dt until_dt items w → weekday w = 0%Z.
Proof.
  intros (it & _ & [Ho|Hc]).
  - unfold opened_in in Ho. apply andb_true_iff in Ho as [_ Ho].
    apply Z.eqb_eq in Ho as <-. apply weekday_week_floor.
  - unfold closed_in in Hc. apply andb_true_iff in Hc as [_ Hc].
    destruct (closed_at it) as [c|]; [|discriminate].
    apply Z.eqb_eq in Hc as <-. apply weekday_week_floor.
Qed.

Lemma active_iff_accepted (since_dt until_dt : datetime) (items : list Issue) :
  (∃ w, active since_dt until_dt items w)
  ↔ ∃ it, it ∈ items ∧ accepted since_dt until_dt it = true.
Proof.
  split.
  - intros (w & it & Hin & [Ho|Hc]); exists it; (split; [done|]).
    + unfold opened_in in Ho. by apply andb_true_iff in Ho as [? _].
    + unfold closed_in in Hc. by apply andb_true_iff in Hc as [? _].
  - intros (it & Hin & Ha). exists (week_floor (created_at it)), it. split; [done|].
    left. unfold opened_in. by rewrite Ha, Z.eqb_refl.
Qed.

(** The rows of the table, by position. *)
Lemma fetch_main_rows (since_dt until_dt : datetime) (items : list Issue)
    (rows : list (WeekRow Z)) :
  fetch_main isoformat since_dt until_dt items = Ok (Wrote rows) →
  ∃ created start_w end_w,
    active since_dt until_dt items start_w
    ∧ active since_dt until_dt items end_w
    ∧ (∀ w, active since_dt until_dt items w → (start_w <= w <= end_w)%Z)
    ∧ length rows = Z.to_nat ((end_w - start_w) / 7 + 1)
    ∧ (∀ w, inflow (bucket_at created w) = count_if (opened_in since_dt until_dt w) items)
    ∧ (∀ w, outflow (bucket_at created w) = count_if (closed_in since_dt until_dt w) items)
    ∧ ∀ (i : nat) row, rows !! i = Some row →
        let w := (start_w + 7 * Z.of_nat i)%Z in
        row = {|
          week_start := isoformat w;
          defects_inflow_total := count_if (opened_in since_dt until_dt w) items;
          defects_outflow_total := count_if (closed_in since_dt until_dt w) items;
          severity_critical_in := count_if (opened_as since_dt until_dt "critical" w) items;
          severity_high_in := count_if (opened_as since_dt until_dt "high" w) items;
          severity_medium_in := count_if (opened_as since_dt until_dt "medium" w) items;
          severity_low_in := count_if (opened_as since_dt until_dt "low" w) items;
          avg_resolution_time_hours := 36%Z;
          backlog_total :=
            backlog_after created 0 (take (S i) (all_weeks start_w end_w)) |}.
Proof.
  intros Efetch.
  destruct (fetch_main_spec since_dt until_dt items)
    as (created & Hc & Hin & Hout & Hsev & Hkeys & [[_ E]|(s & e & rows' & E & Hs & He & Hb & Er)]).
  { rewrite E in Efetch. discriminate. }
  rewrite E in Efetch. injection Efetch as ->.
  exists created, s, e.
  destruct (build_rows_spec created (all_weeks s e) 0 Hc) as (rows' & Er' & Hlen & Hrows).
  rewrite Er in Er'. injection Er' as <-.
  split_and!; try done.
  - rewrite Hlen, all_weeks_spec. by rewrite length_map, length_seq.
  - intros i row Hrow w.
    assert (Hi : (i < length (all_weeks s e))%nat).
    { rewrite <- Hlen. by eapply lookup_lt_Some. }
    assert (Hw : all_weeks s e !! i = Some w).
    { rewrite all_weeks_spec in Hi |- *. rewrite length_map, length_seq in Hi.
      rewrite list_lookup_fmap, lookup_seq_lt by done. reflexivity. }
    rewrite (Hrows i w Hw) in Hrow. injection Hrow as <-.
    rewrite Hin, Hout, !Hsev by (unfold severities; repeat constructor). reflexivity.
Qed.

(** X13. The aggregation never raises, in particular no [KeyError] from
    the severity counters; it reports no issues, and writes no table,
    exactly when the listing has no issue that is not a pull request and
    was created within the range. *)
Theorem fetch_main_outcome (since_dt until_dt : datetime) (items : list Issue) :
  ∃ outcome,
    fetch_main isoformat since_dt until_dt items = Ok outcome
    ∧ (outcome = NoIssuesFound ↔
       ∀ it, it ∈ items → accepted since_dt until_dt it = false).
Proof.
  destruct (fetch_main_spec since_dt until_dt items)
    as (created & _ & _ & _ & _ & _ & [[Hno E]|(s & e & rows & E & Hs & _)]).
  - exists NoIssuesFound. split; [exact E|]. split; [|done]. intros _ it Hit.
    destruct (accepted since_dt until_dt it) eqn:Ha; [|done].
    exfalso. apply Hno. apply active_iff_accepted. by exists it.
  - exists (Wrote rows). split; [exact E|]. split; [discriminate|].
    intros Hall. exfalso.
    destruct (proj1 (active_iff_accepted since_dt until_dt items)) as (it & Hit & Ha);
      [by exists s|].
    rewrite (Hall it Hit) in Ha. discriminate.
Qed.

(** X14. The table has one row per week, Monday to Monday without gaps,
    from the first to the last week in which a counted issue was opened or
    closed, so every such week has its row. *)
Theorem fetch_main_weeks (since_dt until_dt : datetime) (items : list Issue)
    (rows : list (WeekRow Z)) :
  fetch_main isoformat since_dt until_dt items = Ok (Wrote rows) →
  ∃ start_w end_w,
    weekday start_w = 0%Z
    ∧ active since_dt until_dt items start_w
    ∧ active since_dt until_dt items end_w
    ∧ (∀ w, active since_dt until_dt items w → (start_w <= w <= end_w)%Z)
    ∧ end_w = (start_w + 7 * (Z.of_nat (length rows) - 1))%Z
    ∧ map week_start rows
      = map (fun k => isoformat (start_w + 7 * Z.of_nat k)) (seq 0 (length rows)).
Proof.
  intros Efetch.
  destruct (fetch_main_rows since_dt until_dt items rows Efetch)
    as (created & s & e & Hs & He & Hb & Hlen & _ & _ & Hrows).
  exists s, e.
  pose proof (active_monday _ _ _ _ Hs) as Ms.
  pose proof (active_monday _ _ _ _ He) as Me.
  pose proof (Hb e He) as Hse.
  split_and!; try done.
  - rewrite Hlen. unfold weekday in Ms, Me. Z.div_mod_to_equations. lia.
  - apply list_eq. intros i. rewrite !list_lookup_fmap.
    destruct (rows !! i) as [row|] eqn:Hrow; simpl.
    + rewrite lookup_seq_lt by (by eapply lookup_lt_Some). simpl.
      by rewrite (Hrows i row Hrow).
    + rewrite lookup_seq_ge; [done|]. by apply lookup_ge_None.
Qed.

(** X15. Row [i] of the table counts exactly the issues of its week: the
    counted issues opened in it, those closed in it, the opened ones by the
    severity [severity_from] gives them, for label names of characters
    below U+0100; the resolution time is the constant 36. *)
Theorem fetch_main_counts (since_dt until_dt : datetime) (items : list Issue)
    (rows : list (WeekRow Z)) :
  fetch_main isoformat since_dt until_dt items = Ok (Wrote rows) →
  ∃ start_w,
    active since_dt until_dt items start_w
    ∧ ∀ (i : nat) row, rows !! i = Some row →
        let w := (start_w + 7 * Z.of_nat i)%Z in
        week_start row = isoformat w
        ∧ defects_inflow_total row = count_if (opened_in since_dt until_dt w) items
        ∧ defects_outflow_total row = count_if (closed_in since_dt until_dt w) items
        ∧ severity_critical_in row = count_if (opened_as since_dt until_dt "critical" w) items
        ∧ severity_high_in row = count_if (opened_as since_dt until_dt "high" w) items
        ∧ severity_medium_in row = count_if (opened_as since_dt until_dt "medium" w) items
        ∧ severity_low_in row = count_if (opened_as since_dt until_dt "low" w) items
        ∧ avg_resolution_time_hours row = 36%Z.
Proof.
  intros Efetch.
  destruct (fetch_main_rows since_dt until_dt items rows Efetch)
    as (created & s & e & Hs & _ & _ & _ & _ & _ & Hrows).
  exists s. split; [exact Hs|]. intros i row Hrow w.
  rewrite (Hrows i row Hrow). simpl. by split_and!.
Qed.

Lemma backlog_after_nonneg (created : gmap Z Bucket) (weeks : list Z) (w : Z) :
  (0 <= backlog_after created 0 (weeks ++ [w]))%Z.
Proof. unfold backlog_after. rewrite fold_left_app. simpl. lia. Qed.

(** X16. In every row of the table the four severity counts add up to the
    inflow, and the counts, the outflow and the backlog are not negative. *)
Theorem fetch_main_row_invariants (since_dt until_dt : datetime) (items : list Issue)
    (rows : list (WeekRow Z)) :
  fetch_main isoformat since_dt until_dt items = Ok (Wrote rows) →
  Forall (fun row =>
            (severity_critical_in row + severity_high_in row
             + severity_medium_in row + severity_low_in row
             = defects_inflow_total row)%Z
            ∧ (0 <= severity_critical_in row)%Z ∧ (0 <= severity_high_in row)%Z
            ∧ (0 <= severity_medium_in row)%Z ∧ (0 <= severity_low_in row)%Z
            ∧ (0 <= defects_outflow_total row)%Z
            ∧ (0 <= backlog_total row)%Z) rows.
Proof.
  intros Efetch.
  destruct (fetch_main_rows since_dt until_dt items rows Efetch)
    as (created & s & e & _ & _ & _ & Hlen & _ & _ & Hrows).
  apply Forall_lookup. intros i row Hrow.
  assert (Hi : (i < length (all_weeks s e))%nat).
  { rewrite all_weeks_spec, length_map, length_seq, <- Hlen. by eapply lookup_lt_Some. }
  destruct (lookup_lt_is_Some_2 _ _ Hi) as [w Hw].
  rewrite (Hrows i row Hrow). simpl. split_and!; try apply count_if_nonneg.
  - apply count_if_by_severity.
  - rewrite (take_S_r _ _ _ Hw). apply backlog_after_nonneg.
Qed.

(** X17. The backlog is the running sum of inflow minus outflow, clamped
    at zero after every week, starting from zero. *)
Theorem fetch_main_backlog (since_dt until_dt : datetime) (items : list Issue)
    (rows : list (WeekRow Z)) :
  fetch_main isoformat since_dt until_dt items = Ok (Wrote rows) →
  (∀ row, rows !! 0%nat = Some row →
     backlog_total row
     = Z.max 0 (defects_inflow_total row - defects_outflow_total row))
  ∧ (∀ (i : nat) prev row, rows !! i = Some prev → rows !! S i = Some row →
       backlog_total row
       = Z.max 0 (backlog_total prev + defects_inflow_total row
                  - defects_outflow_total row)).
Proof.
  intros Efetch.
  destruct (fetch_main_rows since_dt until_dt items rows Efetch)
    as (created & s & e & _ & _ & _ & Hlen & Hin & Hout & Hrows).
  assert (Hweek : ∀ i, (i < length rows)%nat →
            all_weeks s e !! i = Some (s + 7 * Z.of_nat i)%Z).
  { intros i Hi. rewrite all_weeks_spec, list_lookup_fmap, lookup_seq_lt by lia. done. }
  split.
  - intros row Hrow. rewrite (Hrows 0%nat row Hrow). simpl.
    rewrite (take_S_r _ _ _ (Hweek 0%nat ltac:(by eapply lookup_lt_Some))).
    simpl. unfold backlog_after. simpl. rewrite Hin, Hout. lia.
  - intros i prev row Hprev Hrow.
    rewrite (Hrows _ row Hrow), (Hrows _ prev Hprev). simpl.
    rewrite (take_S_r _ (S i) _ (Hweek (S i) ltac:(by eapply lookup_lt_Some))).
    unfold backlog_after. rewrite fold_left_app. simpl. rewrite Hin, Hout. lia.
Qed.
End RowsFacts.

(** ** Text lemmas *)

Lemma app_nil_s (b : string) : "" +:+ b = b.
Proof. reflexivity. Qed.

Lemma app_cons_s (c : ascii) (a b : string) : String c a +:+ b = String c (a +:+ b).
Proof. reflexivity. Qed.

Ltac app_simpl := rewrite ?app_cons_s, ?app_nil_s.

Lemma app_assoc_s (a b c : string) : (a +:+ b) +:+ c = a +:+ (b +:+ c).
Proof. induction a as [|x a IH]; app_simpl; [done|]. by rewrite IH. Qed.

Lemma prefix_app (p b : string) : String.prefix p (p +:+ b) = true.
Proof.
  induction p as [|c p IH]; app_simpl; simpl; [by destruct b|].
  destruct (Ascii.ascii_dec c c); [done|congruence].
Qed.

Lemma prefix_inv (p s : string) : String.prefix p s = true → ∃ b, s = p +:+ b.
Proof.
  revert s. induction p as [|c p IH]; intros s Hp; [by exists s|].
  destruct s as [|c' s]; simpl in Hp; [discriminate|].
  destruct (Ascii.ascii_dec c c') as [<-|]; [|discriminate].
  destruct (IH s Hp) as [b ->]. by exists b.
Qed.

Lemma contains_prefix (p s : string) :
  String.prefix p s = true → str_contains p s = true.
Proof. intros Hp. destruct s; simpl in *; by rewrite Hp. Qed.

Lemma contains_app (a p b : string) : str_contains p (a +:+ p +:+ b) = true.
Proof.
  induction a as [|c a IH]; app_simpl.
  - apply contains_prefix, prefix_app.
  - simpl. rewrite IH. by rewrite orb_true_r.
Qed.

Lemma contains_inv (p s : string) :
  str_contains p s = true → ∃ a b, s = a +:+ p +:+ b.
Proof.
  induction s as [|c s IH]; cbn [str_contains].
  - rewrite orb_false_r. intros Hp. destruct (prefix_inv _ _ Hp) as [b ->]. by exists "", b.
  - intros Hp. apply orb_true_iff in Hp as [Hp|Hp].
    + destruct (prefix_inv _ _ Hp) as [b ->]. by exists "", b.
    + destruct (IH Hp) as (a & b & ->). by exists (String c a), b.
Qed.

Lemma chars_apart_tail (p : string) (o : ascii) (old : string) :
  chars_apart p (String o old) = true → chars_apart p old = true.
Proof.
  induction p as [|c p IH]; simpl; [done|].
  intros Hp. apply andb_true_iff in Hp as [Hc Hp].
  apply negb_true_iff, orb_false_iff in Hc as [_ Hc].
  by rewrite Hc, (IH Hp).
Qed.

Lemma prefix_before (old x p b : string) (c : ascii) :
  chars_apart (String c p) old = true →
  String.prefix old (x +:+ String c p +:+ b) = true →
  String.length old ≤ String.length x.
Proof.
  revert old. induction x as [|y x IH]; intros old Hap Hpre.
  - rewrite app_nil_s, app_cons_s in Hpre.
    destruct old as [|o old]; [simpl; lia|]. simpl in Hpre.
    destruct (Ascii.ascii_dec o c) as [->|]; [|discriminate].
    simpl in Hap. apply andb_true_iff in Hap as [Hc _].
    rewrite bool_decide_eq_true_2 in Hc by done. discriminate.
  - rewrite app_cons_s in Hpre.
    destruct old as [|o old]; [simpl; lia|]. simpl in Hpre.
    destruct (Ascii.ascii_dec o y) as [->|]; [|discriminate].
    simpl. apply le_n_S, IH; [|done].
    by eapply chars_apart_tail.
Qed.

Lemma replace_through (old new p b : string) (o : ascii) :
  chars_apart p (String o old) = true →
  str_replace_from (String o old) new 0 (p +:+ b)
  = p +:+ str_replace_from (String o old) new 0 b.
Proof.
  induction p as [|c p IH]; intros Hap; [done|].
  simpl in Hap. apply andb_true_iff in Hap as [Hc Hap].
  apply negb_true_iff, orb_false_iff in Hc as [Hc _].
  apply bool_decide_eq_false in Hc.
  app_simpl. cbn [str_replace_from String.prefix].
  destruct (Ascii.ascii_dec o c) as [->|]; [done|].
  by rewrite (IH Hap).
Qed.

Lemma replace_keeps (old new p b : string) (o c : ascii) (a : string) (skip : nat) :
  chars_apart (String c p) (String o old) = true →
  skip ≤ String.length a →
  ∃ a' b', str_replace_from (String o old) new skip (a +:+ String c p +:+ b)
           = a' +:+ String c p +:+ b'.
Proof.
  intros Hap. revert skip. induction a as [|y a IH]; intros skip Hskip.
  - simpl in Hskip. replace skip with 0 by lia.
    exists "", (str_replace_from (String o old) new 0 b).
    rewrite !app_nil_s. by rewrite (replace_through _ _ (String c p)).
  - destruct skip as [|k].
    + rewrite app_cons_s. cbn [str_replace_from].
      destruct (String.prefix (String o old) (String y (a +:+ String c p +:+ b))) eqn:Hpre.
      * pose proof (prefix_before (String o old) (String y a) p b c Hap Hpre) as Hlen.
        destruct (IH (String.length (String o old) - 1)) as (a' & b' & E).
        { simpl in *. lia. }
        rewrite E. exists (new +:+ a'), b'. by rewrite app_assoc_s.
      * destruct (IH 0) as (a' & b' & E); [lia|].
        rewrite E. by exists (String y a'), b'.
    + rewrite app_cons_s. cbn [str_replace_from].
      destruct (IH k) as (a' & b' & E); [simpl in Hskip; lia|]. eauto.
Qed.

Lemma replace_contains (old new p s : string) (o c : ascii) :
  chars_apart (String c p) (String o old) = true →
  str_contains (String c p) s = true →
  str_contains (String c p) (str_replace (String o old) new s) = true.
Proof.
  intros Hap Hs. destruct (contains_inv _ _ Hs) as (a & b & ->).
  unfold str_replace.
  destruct (replace_keeps old new p b o c a 0 Hap) as (a' & b' & ->); [lia|].
  apply contains_app.
Qed.

Lemma lstrip_keeps (a p b : string) (c : ascii) :
  is_space c = false →
  ∃ a', str_lstrip (a +:+ String c p +:+ b) = a' +:+ String c p +:+ b.
Proof.
  intros Hc. induction a as [|y a IH].
  - exists "". rewrite !app_nil_s, app_cons_s. simpl. by rewrite Hc.
  - rewrite (app_cons_s y a). simpl. destruct (is_space y); [exact IH|]. by exists (String y a).
Qed.

Lemma rstrip_keeps_here (p b : string) (c : ascii) :
  no_space (String c p) = true →
  ∃ b', str_rstrip (String c p +:+ b) = String c p +:+ b'.
Proof.
  revert c. induction p as [|d p IH]; intros c Hns.
  - app_simpl. simpl in Hns. rewrite andb_true_r in Hns. apply negb_true_iff in Hns.
    cbn [str_rstrip]. destruct (str_rstrip b) as [|e t].
    + rewrite Hns. by exists "".
    + by exists (String e t).
  - rewrite app_cons_s. cbn [str_rstrip].
    simpl in Hns. apply andb_true_iff in Hns as [_ Hns].
    destruct (IH d Hns) as [b' ->]. rewrite app_cons_s. by exists b'.
Qed.

Lemma rstrip_keeps (a p b : string) (c : ascii) :
  no_space (String c p) = true →
  ∃ b', str_rstrip (a +:+ String c p +:+ b) = a +:+ String c p +:+ b'.
Proof.
  intros Hns. induction a as [|y a IH].
  - rewrite !app_nil_s. by apply rstrip_keeps_here.
  - rewrite (app_cons_s y a). cbn [str_rstrip]. destruct IH as [b' ->].
    exists b'. rewrite (app_cons_s y a). by destruct a.
Qed.

Lemma strip_contains (p s : string) (c : ascii) :
  no_space (String c p) = true →
  str_contains (String c p) s = true →
  str_contains (String c p) (str_strip s) = true.
Proof.
  intros Hns Hs. destruct (contains_inv _ _ Hs) as (a & b & ->).
  unfold str_strip.
  assert (Hc : is_space c = false).
  { simpl in Hns. apply andb_true_iff in Hns as [Hc _]. by apply negb_true_iff in Hc. }
  destruct (lstrip_keeps a p b c Hc) as [a' ->].
  destruct (rstrip_keeps a' p b c Hns) as [b' ->].
  apply contains_app.
Qed.

Lemma str_concat_cons (sep x : string) (l : list string) :
  l ≠ [] → String.concat sep (x :: l) = x +:+ sep +:+ String.concat sep l.
Proof. by destruct l. Qed.

Lemma concat_contains (sep p : string) (l1 l2 : list string) (s : string) :
  str_contains p s = true →
  str_contains p (String.concat sep (l1 ++ s :: l2)) = true.
Proof.
  intros Hs. destruct (contains_inv _ _ Hs) as (a & b & ->).
  induction l1 as [|x l1 IH].
  - rewrite app_nil_l. destruct l2 as [|y l2]; [by apply contains_app|].
    rewrite str_concat_cons by done. rewrite !app_assoc_s. apply contains_app.
  - rewrite <- app_comm_cons, str_concat_cons by (by destruct l1).
    destruct (contains_inv _ _ IH) as (a' & b' & ->).
    replace (x +:+ sep +:+ a' +:+ p +:+ b') with ((x +:+ sep +:+ a') +:+ p +:+ b')
      by (by rewrite !app_assoc_s).
    apply contains_app.
Qed.

(** X12. A label whose name contains p0, in any letter case, makes the
    issue critical whatever its other labels say. *)
Theorem severity_from_p0_critical (labels : list Label) (l : Label) (name : string) :
  l ∈ labels →
  label_name l = Some name →
  str_contains "p0" (str_lower name) = true →
  severity_from labels = "critical".
Proof.
  intros Hl Hname Hp0.
  apply list_elem_of_split in Hl as (l1 & l2 & ->).
  unfold severity_from.
  set (norm := fun l : Label => str_strip (str_lower (default "" (label_name l)))).
  assert (Htxt : str_contains "p0" (String.concat " " (map norm (l1 ++ l :: l2))) = true).
  { rewrite map_app. simpl. apply concat_contains.
    unfold norm. rewrite Hname. simpl. by apply (strip_contains "0" _ "p"%char). }
  apply (replace_contains "ugzilla/" "" "0" _ "b"%char "p"%char eq_refl) in Htxt.
  apply (replace_contains "everity-" "severity:" "0" _ "s"%char "p"%char eq_refl) in Htxt.
  change (String "b" "ugzilla/") with "bugzilla/" in Htxt.
  change (String "s" "everity-") with "severity-" in Htxt.
  change (String "p" "0") with "p0" in Htxt.
  rewrite Htxt. by rewrite orb_true_r.
Qed.

(** Stripping is Python's: a no-break space (U+00A0) at the end of a label
    is removed like a blank, so the two labels below join to a text that
    contains [severity: low]. *)
Lemma severity_from_strips_no_break_space :
  severity_from [ {| label_name := Some ("Severity:" +:+ String (ascii_of_nat 160) "") |};
                  {| label_name := Some "low critical" |} ] = "low".
Proof. vm_compute. reflexivity. Qed.

(** ** Pagination *)

Lemma char_in_app (c : ascii) (a b : string) :
  char_in c (a +:+ b) = char_in c a || char_in c b.
Proof.
  induction a as [|x a IH]; [done|]. rewrite app_cons_s. simpl.
  by rewrite IH, orb_assoc.
Qed.

Lemma split_no_sep (sep : ascii) (s : string) :
  char_in sep s = false → str_split sep s = [s].
Proof.
  induction s as [|c s IH]; simpl; [done|]. intros Hc.
  apply orb_false_iff in Hc as [Hc Hs].
  apply bool_decide_eq_false in Hc.
  rewrite bool_decide_eq_false_2 by congruence. by rewrite (IH Hs).
Qed.

Lemma split_app (sep : ascii) (s t : string) :
  char_in sep s = false →
  str_split sep (s +:+ String sep t) = s :: str_split sep t.
Proof.
  induction s as [|c s IH]; intros Hc.
  - rewrite app_nil_s. simpl. by rewrite bool_decide_eq_true_2.
  - rewrite app_cons_s. simpl in *.
    apply orb_false_iff in Hc as [Hc Hs]. apply bool_decide_eq_false in Hc.
    rewrite bool_decide_eq_false_2 by congruence. by rewrite (IH Hs).
Qed.

Lemma split_concat (sep : ascii) (l : list string) :
  l ≠ [] → Forall (fun p => char_in sep p = false) l →
  str_split sep (String.concat (String sep "") l) = l.
Proof.
  intros Hne Hall. induction Hall as [|p l Hp Hall IH]; [done|].
  destruct l as [|q l]; [by apply split_no_sep|].
  rewrite str_concat_cons by done. rewrite app_cons_s, app_nil_s.
  rewrite split_app by done. by rewrite IH.
Qed.

Lemma first_next_skip (before rest : list string) :
  Forall (fun p => str_contains rel_next p = false) before →
  first_next (before ++ rest) = first_next rest.
Proof. induction 1 as [|p l Hp _ IH]; simpl; [done|]. by rewrite Hp. Qed.

Lemma contains_suffix (p a s : string) :
  str_contains p s = true → str_contains p (a +:+ s) = true.
Proof.
  intros Hs. destruct (contains_inv _ _ Hs) as (x & y & ->).
  rewrite <- app_assoc_s. apply contains_app.
Qed.

Lemma find_app (c : ascii) (a b : string) :
  char_in c a = false →
  str_find c (a +:+ String c b) = Z.of_nat (String.length a).
Proof.
  induction a as [|x a IH]; intros Hc.
  - rewrite app_nil_s. simpl. by rewrite bool_decide_eq_true_2.
  - rewrite app_cons_s. simpl in *. apply orb_false_iff in Hc as [Hx Ha].
    rewrite Hx, (IH Ha).
    destruct (Z.of_nat (String.length a) <? 0)%Z eqn:E; [apply Z.ltb_lt in E; lia|lia].
Qed.

Lemma length_app_s (a b : string) :
  String.length (a +:+ b) = String.length a + String.length b.
Proof. induction a as [|x a IH]; [done|]. rewrite app_cons_s. simpl. by rewrite IH. Qed.

Lemma substring_middle (a u b : string) :
  substring (String.length a) (String.length u) (a +:+ u +:+ b) = u.
Proof.
  induction a as [|x a IH].
  - rewrite app_nil_s. simpl. induction u as [|y u IHu]; [by destruct b|].
    rewrite app_cons_s. simpl. by rewrite IHu.
  - rewrite app_cons_s. simpl. exact IH.
Qed.

Lemma next_link_of_links_to (header u : string) :
  links_to header u → next_link header = Some u.
Proof.
  intros (before & after & pad & tail & -> & Hbefore & Hafter
          & Hp1 & Hp2 & Hp3 & Hu1 & Hu2 & Ht1 & Ht2).
  unfold next_link.
  set (part := pad +:+ "<" +:+ u +:+ ">" +:+ tail).
  assert (Hpart : char_in "," part = false).
  { unfold part. rewrite !char_in_app, Hp1, Hu1, Ht1. done. }
  rewrite split_concat.
  2:{ by destruct before. }
  2:{ apply Forall_app. split; [|constructor; [done|done]].
      eapply Forall_impl; [exact Hbefore|]. by intros p [? _]. }
  rewrite first_next_skip.
  2:{ eapply Forall_impl; [exact Hbefore|]. by intros p [_ ?]. }
  simpl.
  assert (Hc : str_contains rel_next part = true).
  { unfold part. rewrite <- !app_assoc_s. by apply contains_suffix. }
  rewrite Hc. f_equal.
  assert (Hlt : str_find "<" part = Z.of_nat (String.length pad)).
  { unfold part. change ("<" +:+ u +:+ ">" +:+ tail) with (String "<" (u +:+ ">" +:+ tail)).
    by apply find_app. }
  assert (Hgt : str_find ">" part
                = Z.of_nat (String.length pad + 1 + String.length u)).
  { unfold part.
    replace (pad +:+ "<" +:+ u +:+ ">" +:+ tail)
      with ((pad +:+ "<" +:+ u) +:+ String ">" tail) by (by rewrite !app_assoc_s).
    rewrite find_app.
    - rewrite !length_app_s. simpl. f_equal. lia.
    - rewrite !char_in_app, Hp3, Hu2. done. }
  rewrite Hlt, Hgt. unfold str_slice.
  assert (Hlen : String.length part
                 = String.length pad + 1 + String.length u + 1 + String.length tail).
  { unfold part. rewrite !length_app_s. simpl. lia. }
  rewrite Hlen.
  repeat match goal with
         | |- context [(?a <? 0)%Z] =>
             let E := fresh in destruct (a <? 0)%Z eqn:E;
             [apply Z.ltb_lt in E; lia|clear E]
         end.
  replace (Z.to_nat (Z.min (Z.of_nat (String.length pad) + 1) _))
    with (String.length (pad +:+ "<")) by (rewrite length_app_s; simpl; lia).
  replace (Z.to_nat (_ - _)) with (String.length u) by lia.
  unfold part.
  replace (pad +:+ "<" +:+ u +:+ ">" +:+ tail)
    with ((pad +:+ "<") +:+ u +:+ (">" +:+ tail)) by (by rewrite !app_assoc_s).
  apply substring_middle.
Qed.

Section SessionFacts.
Context {Server : Type} (get : Server → string → bool → Response * Server).

Lemma first_next_none (parts : list string) :
  Forall (fun p => str_contains rel_next p = false) parts → first_next parts = None.
Proof. induction 1 as [|p l Hp _ IH]; simpl; [done|]. by rewrite Hp. Qed.

(** X18. Reading the [link] header.  When the first of its
    comma-separated parts that contains [rel="next"] has the form
    [pad<u>tail], with neither [<] nor [>] in [pad], no [>] in [u] and the
    marker [rel="next"] in [tail], the address extracted is [u],
    unchanged; when no part contains the marker, none is extracted. *)
Theorem next_link_round_trip (header : string) :
  (∀ u, links_to header u → next_link header = Some u)
  ∧ (Forall (fun p => str_contains rel_next p = false) (str_split "," header) →
     next_link header = None).
Proof.
  split.
  - intros u. apply next_link_of_links_to.
  - apply first_next_none.
Qed.

(** X19. [paged] follows the links: when the server serves a run of pages
    chained by well-formed headers, it yields the items of all pages in
    order and stops at the page without a next link, or at the first failed
    request, after one request per page; a dictionary payload yields
    nothing. *)
Theorem paged_follows_links (st : Server) (url : string) (wp : bool)
    (pages : list (list Issue)) (ending : PageEnd) (st' : Server) (fuel : nat) :
  serves get st url wp pages ending st' →
  length pages < fuel →
  paged get fuel st url wp = Some (concat pages, ending, st').
Proof.
  intros Hs. revert fuel.
  induction Hs as [st url wp r st' Hget Hok
                  |st url wp r st' Hget Hok Hno
                  |st url wp r st' h u pages ending st'' Hget Hok Hh Hlinks Hu Hs IH];
    intros [|fuel] Hfuel; simpl in Hfuel; try lia; simpl; rewrite Hget, Hok; simpl.
  - reflexivity.
  - unfold no_next in Hno. fold (page_items r).
    destruct (link_header r) as [h|]; simpl; [|by rewrite app_nil_r].
    unfold next_link. rewrite (first_next_none _ Hno). by rewrite app_nil_r.
  - rewrite Hh. simpl. rewrite (next_link_of_links_to h u Hlinks).
    destruct u as [|c u]; [done|].
    rewrite (IH fuel) by lia. reflexivity.
Qed.
End SessionFacts.

(** ** Runs on the sample data *)

Lemma derive_measures_missing_weight_witness :
  derive_measures sample_weeks partial_cfg = Raise (KeyError "medium").
Proof.
  apply (derive_measures_missing_weight sample_weeks partial_cfg
           ["critical"; "high"] "medium" ["low"]).
  - reflexivity.
  - intros k Hk.
    repeat (apply elem_of_cons in Hk as [->|Hk]; [by eexists|]).
    by apply elem_of_nil in Hk.
  - reflexivity.
Defined.

Lemma resource_plan_missing_hours_witness :
  resource_plan 8%Q sample_sev_pred partial_cfg = Raise (KeyError "low").
Proof.
  apply (resource_plan_missing_hours 8%Q partial_cfg
           [("critical", 4%Q); ("high", 0%Q); ("medium", 0%Q)] "low" 0%Q []).
  - intros k Hk. simpl in Hk.
    repeat (apply elem_of_cons in Hk as [->|Hk]; [by eexists|]).
    by apply elem_of_nil in Hk.
  - reflexivity.
Defined.

Lemma forecast_next_without_forecast_section_witness :
  forecast_next sample_derived partial_cfg 2 = ([], Raise (KeyError "forecast"))
  ∧ (forecast_next sample_derived partial_cfg 4).1 = [auto_switch_message 4].
Proof.
  destruct (forecast_next_without_forecast_section sample_derived partial_cfg 2 eq_refl)
    as [Hshort _].
  destruct (forecast_next_without_forecast_section sample_derived partial_cfg 4 eq_refl)
    as [_ Hlong].
  split.
  - apply Hshort. lia.
  - rewrite Hlong by lia. reflexivity.
Defined.

Lemma forecast_next_missing_alpha_witness :
  forecast_next [] no_alpha_cfg 2 = ([], Raise (KeyError "ewma_alpha")).
Proof.
  exact (forecast_next_missing_alpha [] no_alpha_cfg
           {| method := Some "ewma"; ewma_alpha := None; horizon_weeks := 2 |} 2
           eq_refl eq_refl eq_refl).
Defined.

Lemma indicators_flags_order_witness :
  ∃ out flags,
    indicators sample_derived (sample_cfg "ewma" 0.3) !! 3%nat = Some out
    ∧ problem_flags out = join_flags flags
    ∧ sublist flags [flag_inflow; flag_backlog; flag_spike].
Proof.
  eexists.
  destruct (indicators_flags_order sample_derived (sample_cfg "ewma" 0.3) 3%nat _ eq_refl)
    as (flags & Hjoin & Hsub).
  exists flags. split; [vm_compute; reflexivity|]. split; [exact Hjoin|exact Hsub].
Defined.

Lemma main_report_consistent_witness :
  ∃ printed rep,
    main None (sample_cfg "ewma" 0.3) sample_weeks = (printed, Ok rep)
    ∧ map base (derived_measures_csv rep) = sample_weeks
    ∧ predicted_inflow (doc_resource_plan rep) = doc_inflow_total rep.
Proof.
  pose proof (main_report_consistent None (sample_cfg "ewma" 0.3) sample_weeks) as Hmain.
  eexists _, _. split; [vm_compute; reflexivity|].
  edestruct Hmain as (Hbase & _ & _ & _ & Hpred & _); [vm_compute; reflexivity|].
  split; [exact Hbase|exact Hpred].
Defined.

Lemma resource_plan_headcount_covers_witness :
  ∃ plan, resource_plan 8%Q sample_sev_pred (sample_cfg "ewma" 0.3) = Ok plan
    ∧ (weighted_hours sample_hours sample_sev_pred
       <= inject_Z (recommended_engineers plan) * 40)%Q
    ∧ (inject_Z (recommended_engineers plan - 1) * 40
       < weighted_hours sample_hours sample_sev_pred)%Q.
Proof.
  eexists. split; [vm_compute; reflexivity|].
  apply (resource_plan_headcount_covers 8%Q sample_sev_pred (sample_cfg "ewma" 0.3)).
  - reflexivity.
  - vm_compute. reflexivity.
Defined.

Lemma main_succeeds_witness :
  ∃ rep, (main (Some 4%Z) (sample_cfg "ewma" 0.3) sample_weeks).2 = Ok rep
    ∧ length (derived_measures_csv rep) = 4%nat
    ∧ length (indicators_csv rep) = 4%nat
    ∧ doc_horizon_weeks rep = 4%Z.
Proof.
  apply (main_succeeds (Some 4%Z) (sample_cfg "ewma" 0.3) sample_weeks
           {| method := Some "ewma"; ewma_alpha := Some 0.3%Q; horizon_weeks := 1 |}
           0.3%Q 4).
  - intros k Hk. unfold severities in Hk.
    repeat (apply elem_of_cons in Hk as [->|Hk]; [by eexists|]).
    by apply elem_of_nil in Hk.
  - intros k Hk. unfold severities in Hk.
    repeat (apply elem_of_cons in Hk as [->|Hk]; [by eexists|]).
    by apply elem_of_nil in Hk.
  - reflexivity.
  - reflexivity.
  - reflexivity.
  - lia.
  - simpl. lia.
Defined.

Lemma severity_from_p0_critical_witness :
  severity_from [sample_label "severity: low"; sample_label "Priority-P0"; sample_label "bug"]
  = "critical".
Proof.
  apply (severity_from_p0_critical _ (sample_label "Priority-P0") "Priority-P0").
  - apply elem_of_cons. right. apply elem_of_cons. by left.
  - reflexivity.
  - reflexivity.
Defined.

Lemma fetch_main_weeks_witness :
  ∃ rows start_w end_w,
    fetch_main pretty sample_since sample_until sample_issues = Ok (Wrote rows)
    ∧ weekday start_w = 0%Z
    ∧ end_w = (start_w + 7 * (Z.of_nat (length rows) - 1))%Z
    ∧ map week_start rows
      = map (fun k => pretty (start_w + 7 * Z.of_nat k)%Z) (seq 0 (length rows)).
Proof.
  eexists.
  destruct (fetch_main_weeks pretty sample_since sample_until sample_issues _
              ltac:(vm_compute; reflexivity))
    as (start_w & end_w & Hmon & _ & _ & _ & Hend & Hweeks).
  exists start_w, end_w. split; [vm_compute; reflexivity|]. split; [exact Hmon|].
  split; [exact Hend|exact Hweeks].
Defined.

Lemma fetch_main_counts_witness :
  ∃ rows start_w,
    fetch_main pretty sample_since sample_until sample_issues = Ok (Wrote rows)
    ∧ ∀ (i : nat) row, rows !! i = Some row →
        defects_inflow_total row
        = count_if (opened_in sample_since sample_until (start_w + 7 * Z.of_nat i)%Z)
                   sample_issues.
Proof.
  eexists.
  destruct (fetch_main_counts pretty sample_since sample_until sample_issues _
              ltac:(vm_compute; reflexivity)) as (start_w & _ & Hrows).
  exists start_w. split; [vm_compute; reflexivity|].
  intros i row Hrow. destruct (Hrows i row Hrow) as (_ & Hin & _). exact Hin.
Defined.

Lemma fetch_main_row_invariants_witness :
  ∃ rows,
    fetch_main pretty sample_since sample_until sample_issues = Ok (Wrote rows)
    ∧ Forall (fun row =>
                (severity_critical_in row + severity_high_in row
                 + severity_medium_in row + severity_low_in row
                 = defects_inflow_total row)%Z
                ∧ (0 <= backlog_total row)%Z) rows.
Proof.
  eexists. split; [vm_compute; reflexivity|].
  eapply Forall_impl.
  - apply (fetch_main_row_invariants pretty sample_since sample_until sample_issues).
    vm_compute. reflexivity.
  - intros row (Hsum & _ & _ & _ & _ & _ & Hback). split; [exact Hsum|exact Hback].
Defined.

Lemma fetch_main_backlog_witness :
  ∃ rows,
    fetch_main pretty sample_since sample_until sample_issues = Ok (Wrote rows)
    ∧ ∀ (i : nat) prev row, rows !! i = Some prev → rows !! S i = Some row →
        backlog_total row
        = Z.max 0 (backlog_total prev + defects_inflow_total row
                   - defects_outflow_total row).
Proof.
  eexists. split; [vm_compute; reflexivity|].
  apply (fetch_main_backlog pretty sample_since sample_until sample_issues).
  vm_compute. reflexivity.
Defined.

Lemma sample_header_links : links_to (sample_header sample_next_url) sample_next_url.
Proof.
  exists ["<https://api.github.com/repositories/1/issues?page=1>; rel=" +:+ dquote
            +:+ "prev" +:+ dquote],
         [" <https://api.github.com/repositories/1/issues?page=9>; rel=" +:+ dquote
            +:+ "last" +:+ dquote],
         " ", ("; rel=" +:+ dquote +:+ "next" +:+ dquote).
  split_and!; try reflexivity; repeat constructor.
Qed.

Lemma next_link_round_trip_witness :
  next_link (sample_header sample_next_url) = Some sample_next_url.
Proof.
  exact (proj1 (next_link_round_trip (sample_header sample_next_url)) _ sample_header_links).
Defined.

Lemma paged_follows_links_witness :
  paged sample_server 5 0%nat "https://api.github.com/repos/o/r/issues" true
  = Some (sample_issues, Exhausted, 2%nat).
Proof.
  apply (paged_follows_links sample_server 0%nat _ true
           [take 2 sample_issues; drop 2 sample_issues] Exhausted 2%nat 5).
  - eapply (serves_more sample_server 0%nat _ true
              {| status_ok := true;
                 payload := JsonList (take 2 sample_issues);
                 link_header := Some (sample_header sample_next_url) |} 1%nat).
    + reflexivity.
    + reflexivity.
    + reflexivity.
    + exact sample_header_links.
    + discriminate.
    + eapply (serves_last sample_server 1%nat _ false
                {| status_ok := true;
                   payload := JsonList (drop 2 sample_issues);
                   link_header := None |} 2%nat); [reflexivity|reflexivity|].
      exact I.
  - simpl. lia.
Defined.
